(** * mcp_parser: extraction cascade and accumulator of [src/cli/mcp_parser.py]

    A shallow embedding of the Python module.  Python strings are sequences
    of Unicode code points, JSON values are the objects [json.loads]
    builds, a [dict] is an insertion-ordered association list with unique
    keys, and the long sequential loop of [main] is a fold over the URL
    list that threads the collection, the processed-URL set and a log of
    the requests issued. *)

From Stdlib Require Import String Ascii List Bool Arith NArith ZArith Lia.
Import ListNotations.

Set Warnings "-register-all".

(** ** Text *)

(** A Python [str]: a sequence of code points. *)
Definition text := list N.

Definition code (a : ascii) : N := N_of_ascii a.

(** [T "abc"] is the text of an ASCII literal. *)
Definition T (s : string) : text := map code (list_ascii_of_string s).

(** [Q s] is [T s] with every apostrophe (39) read as a double quote (34),
    so that JSON documents can be written as literals. *)
Definition Q (s : string) : text :=
  map (fun c => if N.eqb c 39 then 34%N else c) (T s).

Definition nl : text := [10%N].

Fixpoint text_eqb (a b : text) : bool :=
  match a, b with
  | [], [] => true
  | x :: a', y :: b' => N.eqb x y && text_eqb a' b'
  | _, _ => false
  end.

(** [str.isspace] on one code point (CPython's [_PyUnicode_IsWhitespace]);
    the same class is the [\s] of [re] on [str] patterns. *)
Definition is_space (c : N) : bool :=
  ((9 <=? c) && (c <=? 13) || (28 <=? c) && (c <=? 32)
   || (c =? 133) || (c =? 160) || (c =? 5760)
   || (8192 <=? c) && (c <=? 8202)
   || (c =? 8232) || (c =? 8233) || (c =? 8239) || (c =? 8287)
   || (c =? 12288))%N.

Fixpoint lstrip (s : text) : text :=
  match s with
  | c :: r => if is_space c then lstrip r else s
  | [] => []
  end.

Definition rstrip (s : text) : text := rev (lstrip (rev s)).

(** [s.strip()] *)
Definition strip (s : text) : text := rstrip (lstrip s).

(** [s.startswith(p)] *)
Fixpoint starts_with (p s : text) : bool :=
  match p, s with
  | [], _ => true
  | x :: p', y :: s' => N.eqb x y && starts_with p' s'
  | _ :: _, [] => false
  end.

(** Index of the first occurrence of [needle] in [s], counted from [i]. *)
Fixpoint find_at (needle s : text) (i : nat) : option nat :=
  if starts_with needle s then Some i
  else match s with
       | [] => None
       | _ :: s' => find_at needle s' (S i)
       end.

(** [s.find(needle, start)]; [None] is Python's [-1]. *)
Definition find (needle s : text) (start : nat) : option nat :=
  if length s <? start then None else find_at needle (skipn start s) start.

(** [needle in s] *)
Definition contains (needle s : text) : bool :=
  match find needle s 0 with Some _ => true | None => false end.

(** [s[a:b]] for [0 <= a], [0 <= b]. *)
Definition slice (s : text) (a b : nat) : text := firstn (b - a) (skipn a s).

(** ** JSON values *)

(** The objects [json.loads] returns.  A float is kept as the lexeme that
    denotes it; nothing below computes with floats. *)
Inductive json : Type :=
| JNull
| JBool (b : bool)
| JInt (z : Z)
| JFloat (lexeme : text)
| JStr (s : text)
| JList (l : list json)
| JDict (d : list (text * json)).

Definition dict := list (text * json).

Section JsonInd.
Variable P : json -> Prop.
Hypothesis Hnull : P JNull.
Hypothesis Hbool : forall b, P (JBool b).
Hypothesis Hint : forall z, P (JInt z).
Hypothesis Hfloat : forall l, P (JFloat l).
Hypothesis Hstr : forall s, P (JStr s).
Hypothesis Hlist : forall l, Forall P l -> P (JList l).
Hypothesis Hdict : forall d, Forall (fun kv => P (snd kv)) d -> P (JDict d).

Fixpoint json_rect' (j : json) : P j :=
  match j with
  | JNull => Hnull
  | JBool b => Hbool b
  | JInt z => Hint z
  | JFloat l => Hfloat l
  | JStr s => Hstr s
  | JList l =>
      Hlist l ((fix go (l : list json) : Forall P l :=
                match l with
                | [] => Forall_nil _
                | x :: r => Forall_cons x (json_rect' x) (go r)
                end) l)
  | JDict d =>
      Hdict d ((fix go (d : dict) : Forall (fun kv => P (snd kv)) d :=
                match d with
                | [] => Forall_nil _
                | kv :: r => Forall_cons kv (json_rect' (snd kv)) (go r)
                end) d)
  end.
End JsonInd.

(** ** Python dictionaries *)

(** [d.get(k)]; [None] is Python's [None] for a missing key. *)
Fixpoint dict_get (d : dict) (k : text) : option json :=
  match d with
  | [] => None
  | (k', v) :: r => if text_eqb k' k then Some v else dict_get r k
  end.

(** [k in d] *)
Definition dict_mem (d : dict) (k : text) : bool :=
  match dict_get d k with Some _ => true | None => false end.

(** [d[k] = v]: an existing key keeps its position, a new one goes last. *)
Fixpoint dict_set (d : dict) (k : text) (v : json) : dict :=
  match d with
  | [] => [(k, v)]
  | (k', v') :: r =>
      if text_eqb k' k then (k', v) :: r else (k', v') :: dict_set r k v
  end.

(** [d.update(other)] *)
Definition dict_update (d other : dict) : dict :=
  fold_left (fun acc kv => dict_set acc (fst kv) (snd kv)) other d.

Definition keys (d : dict) : list text := map fst d.

(** ** Recursive trimmer *)

Fixpoint trim_data_recursively (data : json) : json :=
  match data with
  | JDict d =>
      JDict ((fix items (d : dict) (new_dict : dict) : dict :=
                match d with
                | [] => new_dict
                | (k, v) :: r =>
                    items r (dict_set new_dict (strip k) (trim_data_recursively v))
                end) d [])
  | JList l => JList (map trim_data_recursively l)
  | JStr s => JStr (strip s)
  | _ => data
  end.

(** The loop of the mapping case, as a function on its own. *)
Fixpoint trim_items (d : dict) (new_dict : dict) : dict :=
  match d with
  | [] => new_dict
  | (k, v) :: r => trim_items r (dict_set new_dict (strip k) (trim_data_recursively v))
  end.

(** ** Regular expressions

    The patterns of the module are values of [regex]; [rx_match] is a
    backtracking matcher with the priorities of Python's [re]: a greedy
    star tries one more iteration before the continuation, a lazy star
    the continuation first, an alternation its left branch first. *)

Inductive regex : Type :=
| Eps
| Cls (p : N -> bool)
| Seq (r1 r2 : regex)
| Alt (r1 r2 : regex)
| Star (greedy : bool) (r : regex)
| Group (n : nat) (r : regex)
| Eol (multiline : bool).

Definition captures := list (nat * text).

Fixpoint set_cap (n : nat) (v : text) (caps : captures) : captures :=
  match caps with
  | [] => [(n, v)]
  | (n', v') :: r => if Nat.eqb n' n then (n, v) :: r else (n', v') :: set_cap n v r
  end.

(** [m.group(n)] of a group that took part in the match. *)
Fixpoint group (caps : captures) (n : nat) : text :=
  match caps with
  | [] => []
  | (n', v) :: r => if Nat.eqb n' n then v else group r n
  end.

(** [$]: at the end of the text or before its final newline; with
    MULTILINE, before any newline. *)
Definition at_eol (multiline : bool) (s : text) : bool :=
  match s with
  | [] => true
  | c :: r => N.eqb c 10 && (multiline || match r with [] => true | _ => false end)
  end.

Section Matcher.
Variable R : Type.

(** The iterations of a star over [body]: an iteration has to consume
    text, so [fuel], the length of the text, bounds their number. *)
Fixpoint star_iter (body : text -> captures -> (text -> captures -> option R) -> option R)
         (greedy : bool) (k : text -> captures -> option R)
         (fuel : nat) (s : text) (caps : captures) {struct fuel} : option R :=
  match fuel with
  | 0 => k s caps
  | S fuel' =>
      let again (_ : unit) :=
        body s caps
          (fun s' caps' =>
             if length s' <? length s
             then star_iter body greedy k fuel' s' caps'
             else None) in
      if greedy then
        match again tt with Some x => Some x | None => k s caps end
      else
        match k s caps with Some x => Some x | None => again tt end
  end.

Fixpoint rx_match (r : regex) (s : text) (caps : captures)
         (k : text -> captures -> option R) {struct r} : option R :=
  match r with
  | Eps => k s caps
  | Cls p =>
      match s with
      | c :: s' => if p c then k s' caps else None
      | [] => None
      end
  | Seq r1 r2 => rx_match r1 s caps (fun s' caps' => rx_match r2 s' caps' k)
  | Alt r1 r2 =>
      match rx_match r1 s caps k with
      | Some x => Some x
      | None => rx_match r2 s caps k
      end
  | Star greedy r' => star_iter (rx_match r') greedy k (length s) s caps
  | Group n r' =>
      rx_match r' s caps
        (fun s' caps' => k s' (set_cap n (firstn (length s - length s') s) caps'))
  | Eol multiline => if at_eol multiline s then k s caps else None
  end.
End Matcher.

Arguments star_iter {R} body greedy k fuel s caps.
Arguments rx_match {R} r s caps k.

(** A match anchored at the head of [s]: the text left after it and the
    groups. *)
Definition match_here (r : regex) (s : text) : option (text * captures) :=
  rx_match r s [] (fun s' caps => Some (s', caps)).

(** A match object: [m.start()], [m.end()] and the groups. *)
Record rmatch : Type := { m_start : nat; m_end : nat; m_groups : captures }.

(** [re.search(r, s)], positions counted from [i]. *)
Fixpoint search_from (r : regex) (s : text) (i : nat) : option rmatch :=
  match match_here r s with
  | Some (s', caps) =>
      Some {| m_start := i; m_end := i + (length s - length s'); m_groups := caps |}
  | None =>
      match s with
      | [] => None
      | _ :: s' => search_from r s' (S i)
      end
  end.

Definition re_search (r : regex) (s : text) : option rmatch := search_from r s 0.

(** [re.finditer(r, s)]: the non-overlapping matches from left to right;
    [skip] counts the characters still covered by the previous match. *)
Fixpoint finditer_from (r : regex) (s : text) (i skip : nat) : list rmatch :=
  match skip with
  | S skip' =>
      match s with
      | [] => []
      | _ :: s' => finditer_from r s' (S i) skip'
      end
  | 0 =>
      match match_here r s with
      | Some (s', caps) =>
          let n := length s - length s' in
          {| m_start := i; m_end := i + n; m_groups := caps |}
            :: match s with
               | [] => []
               | _ :: s'' => finditer_from r s'' (S i) (n - 1)
               end
      | None =>
          match s with
          | [] => []
          | _ :: s'' => finditer_from r s'' (S i) 0
          end
      end
  end.

Definition re_finditer (r : regex) (s : text) : list rmatch := finditer_from r s 0 0.

(** [re.sub(r, repl, s)], the replacement computed from the groups. *)
Fixpoint sub_from (r : regex) (repl : captures -> text) (s : text) (skip : nat) : text :=
  match skip with
  | S skip' =>
      match s with
      | [] => []
      | _ :: s' => sub_from r repl s' skip'
      end
  | 0 =>
      match match_here r s with
      | Some (s', caps) =>
          let n := length s - length s' in
          repl caps
            ++ match s with
               | [] => []
               | c :: s'' => (if Nat.eqb n 0 then [c] else []) ++ sub_from r repl s'' (n - 1)
               end
      | None =>
          match s with
          | [] => []
          | c :: s'' => c :: sub_from r repl s'' 0
          end
      end
  end.

Definition re_sub (r : regex) (repl : captures -> text) (s : text) : text :=
  sub_from r repl s 0.

(** Pattern syntax. *)
Definition Chr (c : N) : regex := Cls (N.eqb c).
Definition Lit (s : text) : regex := fold_right (fun c r => Seq (Chr c) r) Eps s.
Definition Plus (greedy : bool) (r : regex) : regex := Seq r (Star greedy r).
Definition Opt (r : regex) : regex := Alt r Eps.
Definition one_of (s : text) (c : N) : bool := existsb (N.eqb c) s.
Definition none_of (s : text) (c : N) : bool := negb (one_of s c).
(** [.] without DOTALL, and with it. *)
Definition dot : regex := Cls (none_of nl).
Definition any : regex := Cls (fun _ => true).
Definition ws : regex := Cls is_space.

(** ** [json.loads]

    The strict parser of the standard library (its C scanner), with fuel
    for the nesting depth and for the members of one container; [None] is
    [JSONDecodeError]. *)

Definition is_json_ws (c : N) : bool :=
  ((c =? 32) || (c =? 9) || (c =? 10) || (c =? 13))%N.

Fixpoint skip_ws (s : text) : text :=
  match s with
  | c :: r => if is_json_ws c then skip_ws r else s
  | [] => []
  end.

Definition is_digit (c : N) : bool := ((48 <=? c) && (c <=? 57))%N.

Definition hex_digit (c : N) : option N :=
  if is_digit c then Some (c - 48)%N
  else if ((97 <=? c) && (c <=? 102))%N then Some (c - 87)%N
  else if ((65 <=? c) && (c <=? 70))%N then Some (c - 55)%N
  else None.

Definition hex4 (s : text) : option (N * text) :=
  match s with
  | a :: b :: c :: d :: r =>
      match hex_digit a, hex_digit b, hex_digit c, hex_digit d with
      | Some a, Some b, Some c, Some d =>
          Some ((((a * 16 + b) * 16 + c) * 16 + d)%N, r)
      | _, _, _, _ => None
      end
  | _ => None
  end.

Definition simple_escape (e : N) : option N :=
  if (e =? 34)%N then Some 34%N
  else if (e =? 92)%N then Some 92%N
  else if (e =? 47)%N then Some 47%N
  else if (e =? 98)%N then Some 8%N
  else if (e =? 102)%N then Some 12%N
  else if (e =? 110)%N then Some 10%N
  else if (e =? 114)%N then Some 13%N
  else if (e =? 116)%N then Some 9%N
  else None.

Definition is_high_surrogate (u : N) : bool := ((55296 <=? u) && (u <=? 56319))%N.
Definition is_low_surrogate (u : N) : bool := ((56320 <=? u) && (u <=? 57343))%N.
Definition join_surrogates (hi lo : N) : N :=
  (65536 + ((hi - 55296) * 1024 + (lo - 56320)))%N.

(** The body of a string literal after its opening quote: the decoded
    string and the text after the closing quote. *)
Fixpoint scanstring (fuel : nat) (s : text) (acc : text) : option (text * text) :=
  match fuel with
  | 0 => None
  | S fuel' =>
      match s with
      | [] => None
      | c :: r =>
          if (c =? 34)%N then Some (rev acc, r)
          else if (c =? 92)%N then
            match r with
            | [] => None
            | e :: r' =>
                if (e =? 117)%N then
                  match hex4 r' with
                  | None => None
                  | Some (u, r'') =>
                      if is_high_surrogate u && starts_with [92; 117]%N r'' then
                        match hex4 (skipn 2 r'') with
                        | None => None
                        | Some (u2, r3) =>
                            if is_low_surrogate u2
                            then scanstring fuel' r3 (join_surrogates u u2 :: acc)
                            else scanstring fuel' r'' (u :: acc)
                        end
                      else scanstring fuel' r'' (u :: acc)
                  end
                else
                  match simple_escape e with
                  | Some ch => scanstring fuel' r' (ch :: acc)
                  | None => None
                  end
            end
          else if (c <=? 31)%N then None
          else scanstring fuel' r (c :: acc)
      end
  end.

Fixpoint digits (s : text) : text * text :=
  match s with
  | c :: r => if is_digit c then let (ds, r') := digits r in (c :: ds, r') else ([], s)
  | [] => ([], [])
  end.

Definition int_of_digits (ds : text) : Z :=
  fold_left (fun acc c => (acc * 10 + Z.of_N (c - 48))%Z) ds 0%Z.

(** A number: an optional minus, [0] or a non-zero digit and digits, an
    optional fraction, an optional exponent. *)
Definition scan_number (s : text) : option (json * text) :=
  let (neg, s1) :=
    match s with
    | c :: r => if (c =? 45)%N then (true, r) else (false, s)
    | [] => (false, s)
    end in
  match s1 with
  | [] => None
  | d :: r =>
      let int_part :=
        if (d =? 48)%N then Some ([d], r)
        else if is_digit d then let (ds, r1) := digits r in Some (d :: ds, r1)
        else None in
      match int_part with
      | None => None
      | Some (ip, r1) =>
          let (frac, r2) :=
            match r1 with
            | p :: r1' =>
                if (p =? 46)%N then
                  match digits r1' with
                  | ([], _) => ([], r1)
                  | (fs, r2) => (p :: fs, r2)
                  end
                else ([], r1)
            | [] => ([], r1)
            end in
          let (expo, r3) :=
            match r2 with
            | e :: r2' =>
                if ((e =? 101) || (e =? 69))%N then
                  let (sign, r2'') :=
                    match r2' with
                    | g :: t => if ((g =? 43) || (g =? 45))%N then ([g], t) else ([], r2')
                    | [] => ([], r2')
                    end in
                  match digits r2'' with
                  | ([], _) => ([], r2)
                  | (es, r3) => (e :: sign ++ es, r3)
                  end
                else ([], r2)
            | [] => ([], r2)
            end in
          match frac, expo with
          | [], [] =>
              Some (JInt (if neg then - int_of_digits ip else int_of_digits ip)%Z, r3)
          | _, _ =>
              Some (JFloat ((if neg then [45%N] else []) ++ ip ++ frac ++ expo), r3)
          end
      end
  end.

Definition keyword (w : string) (v : json) (s : text) : option (json * text) :=
  if starts_with (T w) s then Some (v, skipn (length (T w)) s) else None.

Fixpoint scan_once (fuel : nat) (s : text) {struct fuel} : option (json * text) :=
  match fuel with
  | 0 => None
  | S fuel' =>
      match s with
      | [] => None
      | c :: r =>
          if (c =? 34)%N then
            match scanstring (S (length r)) r [] with
            | Some (str, r') => Some (JStr str, r')
            | None => None
            end
          else if (c =? 123)%N then
            match skip_ws r with
            | [] => None
            | c1 :: r1 =>
                if (c1 =? 125)%N then Some (JDict [], r1)
                else
                  (fix members (n : nat) (s : text) (pairs : dict) {struct n}
                     : option (json * text) :=
                     match n with
                     | 0 => None
                     | S n' =>
                         match s with
                         | [] => None
                         | q :: s1 =>
                             if negb (q =? 34)%N then None
                             else
                               match scanstring (S (length s1)) s1 [] with
                               | None => None
                               | Some (key, s2) =>
                                   match skip_ws s2 with
                                   | [] => None
                                   | colon :: s3 =>
                                       if negb (colon =? 58)%N then None
                                       else
                                         match scan_once fuel' (skip_ws s3) with
                                         | None => None
                                         | Some (v, s4) =>
                                             let pairs := dict_set pairs key v in
                                             match skip_ws s4 with
                                             | [] => None
                                             | d :: s5 =>
                                                 if (d =? 125)%N then Some (JDict pairs, s5)
                                                 else if (d =? 44)%N
                                                      then members n' (skip_ws s5) pairs
                                                      else None
                                             end
                                         end
                                   end
                               end
                         end
                     end) (length r) (c1 :: r1) []
            end
          else if (c =? 91)%N then
            match skip_ws r with
            | [] => None
            | c1 :: r1 =>
                if (c1 =? 93)%N then Some (JList [], r1)
                else
                  (fix elements (n : nat) (s : text) (vals : list json) {struct n}
                     : option (json * text) :=
                     match n with
                     | 0 => None
                     | S n' =>
                         match scan_once fuel' s with
                         | None => None
                         | Some (v, s1) =>
                             match skip_ws s1 with
                             | [] => None
                             | d :: s2 =>
                                 if (d =? 93)%N then Some (JList (rev (v :: vals)), s2)
                                 else if (d =? 44)%N
                                      then elements n' (skip_ws s2) (v :: vals)
                                      else None
                             end
                         end
                     end) (length r) (c1 :: r1) []
            end
          else if (c =? 110)%N then keyword "null" JNull s
          else if (c =? 116)%N then keyword "true" (JBool true) s
          else if (c =? 102)%N then keyword "false" (JBool false) s
          else if (c =? 78)%N then keyword "NaN" (JFloat (T "NaN")) s
          else if (c =? 73)%N then keyword "Infinity" (JFloat (T "Infinity")) s
          else if (c =? 45)%N && starts_with (T "-Infinity") s
               then keyword "-Infinity" (JFloat (T "-Infinity")) s
          else scan_number s
      end
  end.

(** [json.loads(s)]: one value between optional whitespace, nothing after. *)
Definition json_loads (s : text) : option json :=
  match scan_once (S (length s)) (skip_ws s) with
  | Some (v, r) => match skip_ws r with [] => Some v | _ :: _ => None end
  | None => None
  end.

(** ** Balanced-delimiter scanner *)

(** [r"\s*" + re.escape(open_char)] *)
Definition re_ws_then (open_char : N) : regex := Seq (Star true ws) (Chr open_char).

(** How the counting loop of [_find_balanced_structure] ends: at the index
    of the closing delimiter that brings the counter back to zero, or at
    the end of the text with the counter it has then. *)
Inductive scan_end : Type :=
| Closed (i : nat)
| Exhausted (counter : Z).

(** [for i in range(i, len(text_content))], on the characters from [i]. *)
Fixpoint balance_loop (chars : text) (i : nat) (counter : Z)
         (open_char close_char : N) : scan_end :=
  match chars with
  | [] => Exhausted counter
  | char :: rest =>
      if (char =? open_char)%N then
        balance_loop rest (S i) (counter + 1) open_char close_char
      else if (char =? close_char)%N then
        let counter := (counter - 1)%Z in
        if (counter =? 0)%Z then Closed i
        else balance_loop rest (S i) counter open_char close_char
      else balance_loop rest (S i) counter open_char close_char
  end.

(** [struct_open_idx], when the pattern matches.  [str.find] from the start
    of a match of the pattern cannot miss ([struct_open_idx_first] and
    [struct_open_idx_inv] below); [None] stands for that case. *)
Definition struct_open_idx (text_content : text) (start_char_idx : nat)
           (open_char : N) : option nat :=
  let search_text := skipn start_char_idx text_content in
  match re_search (re_ws_then open_char) search_text with
  | None => None
  | Some mt =>
      match find [open_char] search_text (m_start mt) with
      | Some k => Some (start_char_idx + k)
      | None => None
      end
  end.

Definition _find_balanced_structure (text_content : text) (start_char_idx : nat)
           (open_char close_char : N) : option text :=
  match struct_open_idx text_content start_char_idx open_char with
  | None => None
  | Some open_idx =>
      match balance_loop (skipn open_idx text_content) open_idx 0 open_char close_char with
      | Closed i => Some (slice text_content open_idx (i + 1))
      | Exhausted _ => None
      end
  end.

(** ** Tolerant JSON parser *)

(** [r"//.*?$"] with MULTILINE *)
Definition re_line_comment : regex :=
  Seq (Lit (T "//")) (Seq (Star false dot) (Eol true)).
(** [r"/\*.*?\*/"] with DOTALL *)
Definition re_block_comment : regex :=
  Seq (Lit (T "/*")) (Seq (Star false any) (Lit (T "*/"))).
(** [r"\.{3}"] *)
Definition re_ellipsis : regex := Lit (T "...").
(** [r",\s*(\}|\])"] *)
Definition re_trailing_comma : regex :=
  Seq (Chr 44) (Seq (Star true ws) (Group 1 (Alt (Chr 125) (Chr 93)))).

(** The text the second attempt of [_try_parse_json] parses. *)
Definition strip_comments (json_str : text) : text :=
  let no_comments := re_sub re_line_comment (fun _ => []) json_str in
  let no_comments := re_sub re_block_comment (fun _ => []) no_comments in
  let no_comments := re_sub re_ellipsis (fun _ => []) no_comments in
  re_sub re_trailing_comma (fun caps => group caps 1) no_comments.

(** ** What the module takes from its environment

    BeautifulSoup, the Unicode tables behind [str.lower] and [\w], the
    optional [json5] module and the HTTP client are not part of the
    repository; the embedding is parametric in them. *)
Record Runtime : Type := {
  (** [[t.string for t in BeautifulSoup(page, "html.parser")
        .find_all('script', type='application/json')]]; [None] when the
      library raises. *)
  soup_script_strings : text -> option (list (option text));
  (** [BeautifulSoup(page, "html.parser").get_text(separator=" ")];
      [None] when the library raises. *)
  soup_get_text : text -> option text;
  (** [json5.loads] when [json5] is installed; it gives [None] when it
      raises. *)
  json5_loads : option (text -> option json);
  (** [str.lower] on a string that is not pure ASCII. *)
  unicode_lower : text -> text;
  (** [str.isalnum] on a code point above 127. *)
  unicode_alnum : N -> bool;
  (** [requests.get(url, ...)] followed by [raise_for_status()], for the
      n-th request of the run: the body and the Content-Type header, or
      [None] for a timeout, a failed request or an error status. *)
  http_get : nat -> text -> option (text * option text);
  (** [with open(OUTPUT_JSON_FILE, 'w') as f: json.dump(collection, f,
      indent=4)] at the turn of the n-th request: [true] when it completes,
      [false] when [open] or the dump raises [IOError]. *)
  write_output : nat -> list json -> bool
}.

Section Module.
Variable rt : Runtime.

(** Python's [None] is [JNull]: the function gives it both for the text
    [null] and for a text no attempt parses. *)
Definition _try_parse_json (json_str : text) : json :=
  match json_loads json_str with
  | Some v => v
  | None =>
      match json_loads (strip_comments json_str) with
      | Some v => v
      | None =>
          match json5_loads rt with
          | Some loads =>
              match loads json_str with
              | Some v => v
              | None => JNull
              end
          | None => JNull
          end
      end
  end.

(** ** Content extraction cascade *)

Definition is_ascii (c : N) : bool := (c <? 128)%N.
Definition is_upper (c : N) : bool := ((65 <=? c) && (c <=? 90))%N.
Definition is_alpha (c : N) : bool := is_upper c || ((97 <=? c) && (c <=? 122))%N.

(** [s.lower()] *)
Definition lower (s : text) : text :=
  if forallb is_ascii s
  then map (fun c => if is_upper c then (c + 32)%N else c) s
  else unicode_lower rt s.

(** The class [\w]. *)
Definition is_word (c : N) : bool :=
  if is_ascii c then is_alpha c || is_digit c || (c =? 95)%N
  else unicode_alnum rt c.

(** [bool(d)] for a dict, [bool(s)] for a str. *)
Definition nonempty {A : Type} (l : list A) : bool :=
  match l with [] => false | _ :: _ => true end.

(** [d.update(j)] for an object [j] that is a dict, as every object this
    module passes is (the trimmer gives a dict for a dict). *)
Definition py_update (d : dict) (j : json) : dict :=
  match j with
  | JDict other => dict_update d other
  | _ => d
  end.

(** The function either returns a value or goes on with the data it has
    accumulated. *)
Inductive flow : Type :=
| Return (d : dict)
| Continue (d : dict).

Definition and_then (f : flow) (k : dict -> flow) : flow :=
  match f with
  | Return d => Return d
  | Continue d => k d
  end.

Definition result (f : flow) : dict :=
  match f with
  | Return d => d
  | Continue d => d
  end.

Definition mcpServers : text := T "mcpServers".
Definition application_json : text := T "application/json".

(** ["mcpServers" in d and isinstance(d.get("mcpServers"), dict)] *)
Definition designated_mapping (d : dict) : option dict :=
  match dict_get d mcpServers with
  | Some (JDict inner) => Some inner
  | _ => None
  end.

(** Attempt 1: direct JSON parse. *)
Definition attempt_direct (page_content content_type : text)
           (discovered_data : dict) : flow :=
  if contains application_json content_type then
    match json_loads page_content with
    | Some (JDict potential_json_data) =>
        match designated_mapping potential_json_data with
        | Some inner =>
            let discovered_data :=
              py_update discovered_data (trim_data_recursively (JDict inner)) in
            if nonempty discovered_data then Return discovered_data
            else Continue discovered_data
        | None => Continue discovered_data
        end
    | _ => Continue discovered_data
    end
  else Continue discovered_data.

Definition is_str_or_list (o : option json) : bool :=
  match o with
  | Some (JStr _) | Some (JList _) => true
  | _ => false
  end.

Definition is_list (o : option json) : bool :=
  match o with
  | Some (JList _) => true
  | _ => false
  end.

(** [isinstance(val.get("command"), (str, list))
     or isinstance(val.get("args"), list)] for a dict [val]. *)
Definition command_or_args (val : dict) : bool :=
  is_str_or_list (dict_get val (T "command")) || is_list (dict_get val (T "args")).

(** The condition of heuristic 2 of the script-tag attempt (line 156). *)
Definition script_looks_like_servers (parsed_script_json : dict) : bool :=
  forallb (fun val => match val with
                      | JDict v => command_or_args v
                      | _ => false
                      end)
          (map snd parsed_script_json).

(** Attempt 1.5: the loop over the script tags. *)
Fixpoint scripts_loop (script_tags : list (option text)) (discovered_data : dict) : flow :=
  match script_tags with
  | [] => Continue discovered_data
  | script_content :: rest =>
      match script_content with
      | Some script_content =>
          if nonempty script_content then
            match json_loads (strip script_content) with
            | Some (JDict parsed_script_json) =>
                match designated_mapping parsed_script_json with
                | Some inner =>
                    Return (py_update discovered_data
                              (trim_data_recursively (JDict inner)))
                | None =>
                    if script_looks_like_servers parsed_script_json then
                      Return (py_update discovered_data
                                (trim_data_recursively (JDict parsed_script_json)))
                    else scripts_loop rest discovered_data
                end
            | _ => scripts_loop rest discovered_data
            end
          else scripts_loop rest discovered_data
      | None => scripts_loop rest discovered_data
      end
  end.

Definition attempt_scripts (page_content : text) (discovered_data : dict) : flow :=
  if negb (nonempty discovered_data) then
    match soup_script_strings rt page_content with
    | Some script_tags => scripts_loop script_tags discovered_data
    | None => Continue discovered_data
    end
  else Continue discovered_data.

(** [r"```json\s*\n(.*?)\n\s*```"] with DOTALL *)
Definition json_code_block_pattern : regex :=
  Seq (Lit (T "```json"))
    (Seq (Star true ws)
       (Seq (Chr 10)
          (Seq (Group 1 (Star false any))
             (Seq (Chr 10) (Seq (Star true ws) (Lit (T "```"))))))).

(** The first condition of the whole-block branch (line 187). *)
Definition block_values_have_command (parsed_json_from_block : dict) : bool :=
  forallb (fun val => match val with
                      | JDict v => dict_mem v (T "command")
                      | _ => false
                      end)
          (map snd parsed_json_from_block).

(** The loop over [parsed_json_from_block.keys()] (lines 189-192).  Every
    value is a dict when the loop runs; the model gives [false] for another
    value, where Python would raise. *)
Fixpoint key_check_loop (key_checks : list text) (parsed_json_from_block : dict) : bool :=
  match key_checks with
  | [] => true
  | key_check :: rest =>
      match dict_get parsed_json_from_block key_check with
      | Some (JDict v) =>
          if negb (is_str_or_list (dict_get v (T "command")))
             && negb (is_list (dict_get v (T "args")))
          then false
          else key_check_loop rest parsed_json_from_block
      | _ => false
      end
  end.

(** The two conditions of the whole-block branch together. *)
Definition block_looks_like_servers (parsed_json_from_block : dict) : bool :=
  block_values_have_command parsed_json_from_block
  && key_check_loop (keys parsed_json_from_block) parsed_json_from_block.

(** Attempt 2a: the loop over the fenced blocks. *)
Fixpoint blocks_loop (matches : list rmatch) (discovered_data : dict) : flow :=
  match matches with
  | [] => Continue discovered_data
  | mt :: rest =>
      let json_block_content := strip (group (m_groups mt) 1) in
      match json_loads json_block_content with
      | Some (JDict parsed_json_from_block) =>
          match designated_mapping parsed_json_from_block with
          | Some inner =>
              Return (py_update discovered_data (trim_data_recursively (JDict inner)))
          | None =>
              if block_looks_like_servers parsed_json_from_block then
                Return (py_update discovered_data
                          (trim_data_recursively (JDict parsed_json_from_block)))
              else blocks_loop rest discovered_data
          end
      | _ => blocks_loop rest discovered_data
      end
  end.

Definition attempt_code_blocks (page_content : text) (discovered_data : dict) : flow :=
  blocks_loop (re_finditer json_code_block_pattern page_content) discovered_data.

(** The text attempts 2b and 3 search. *)
Definition plain_text (page_content content_type : text) : text :=
  let plain_text_content :=
    if negb (contains application_json content_type) then
      match soup_get_text rt page_content with
      | Some t => t
      | None => page_content
      end
    else page_content in
  if negb (nonempty plain_text_content) && nonempty page_content
  then page_content
  else plain_text_content.

Definition mcp_servers_key_str : text := Q "'mcpServers'".

(** [r"\s*:"] *)
Definition re_ws_colon : regex := Seq (Star true ws) (Chr 58).

(** Attempt 2b: the [while True] loop.  [current_search_idx] grows by at
    least the length of the key at every turn, so the loop ends within
    [length plain_text_content] turns ([key_search_fuel] below). *)
Fixpoint key_search_loop (fuel : nat) (plain_text_content : text)
         (current_search_idx : nat) (discovered_data : dict) : flow :=
  match fuel with
  | 0 => Continue discovered_data
  | S fuel' =>
      match find mcp_servers_key_str plain_text_content current_search_idx with
      | None => Continue discovered_data
      | Some key_occurrence_idx =>
          let after_key_str_idx := key_occurrence_idx + length mcp_servers_key_str in
          match re_search re_ws_colon (skipn after_key_str_idx plain_text_content) with
          | None =>
              key_search_loop fuel' plain_text_content after_key_str_idx discovered_data
          | Some colon_match =>
              let start_of_value_idx := after_key_str_idx + m_end colon_match in
              match _find_balanced_structure plain_text_content start_of_value_idx 123 125 with
              | Some json_object_str =>
                  if nonempty json_object_str then
                    match _try_parse_json json_object_str with
                    | JDict parsed_mcp_servers_obj =>
                        let discovered_data :=
                          py_update discovered_data
                            (trim_data_recursively (JDict parsed_mcp_servers_obj)) in
                        if nonempty discovered_data then Return discovered_data
                        else key_search_loop fuel' plain_text_content
                               after_key_str_idx discovered_data
                    | _ =>
                        key_search_loop fuel' plain_text_content
                          after_key_str_idx discovered_data
                    end
                  else key_search_loop fuel' plain_text_content
                         after_key_str_idx discovered_data
              | None =>
                  key_search_loop fuel' plain_text_content
                    after_key_str_idx discovered_data
              end
          end
      end
  end.

Definition attempt_key_search (plain_text_content : text) (discovered_data : dict) : flow :=
  key_search_loop (S (length plain_text_content)) plain_text_content 0 discovered_data.

(** [[@\w.-]] *)
Definition package_char (c : N) : bool := one_of (T "@.-") c || is_word c.

(** [r'npx\s+-y\s+([@\w.-]+(?:/[@\w.-]+)?)\s+(?:mcp\s+)?([^\n\r<]+)'] *)
Definition npx_command_pattern : regex :=
  Seq (Lit (T "npx"))
    (Seq (Plus true ws)
       (Seq (Lit (T "-y"))
          (Seq (Plus true ws)
             (Seq (Group 1 (Seq (Plus true (Cls package_char))
                              (Opt (Seq (Chr 47) (Plus true (Cls package_char))))))
                (Seq (Plus true ws)
                   (Seq (Opt (Seq (Lit (T "mcp")) (Plus true ws)))
                      (Group 2 (Plus true (Cls (none_of [10; 13; 60]%N)))))))))).

(** The pattern of line 272: one or more of the characters
    [. , ; ! ? ( ) *], the apostrophe and the double quote, then [$]. *)
Definition trailing_punctuation : regex :=
  Seq (Plus true (Cls (one_of (Q ".,;!?()*'" ++ [39%N])))) (Eol false).

(** Attempt 3: the loop over the matches of the npx pattern. *)
Fixpoint npx_loop (matches : list rmatch) (discovered_data : dict) : dict :=
  match matches with
  | [] => discovered_data
  | command_match :: rest =>
      let package_name := strip (group (m_groups command_match) 1) in
      let api_or_argument_part := strip (group (m_groups command_match) 2) in
      let api_or_argument_part :=
        strip (re_sub trailing_punctuation (fun _ => []) api_or_argument_part) in
      let command_parts_list :=
        JList [JStr (T "npx"); JStr (T "-y"); JStr package_name;
               JStr (T "mcp"); JStr api_or_argument_part] in
      npx_loop rest
        (dict_set discovered_data (strip package_name)
           (trim_data_recursively command_parts_list))
  end.

Definition attempt_npx (plain_text_content : text) (discovered_data : dict) : flow :=
  let matches := re_finditer npx_command_pattern plain_text_content in
  let discovered_data := npx_loop matches discovered_data in
  if nonempty matches then Return discovered_data else Continue discovered_data.

(** A response: [response.text] and the Content-Type header, if any. *)
Definition response : Type := (text * option text)%type.

Definition return_if_nonempty (discovered_data : dict) : flow :=
  if nonempty discovered_data then Return discovered_data else Continue discovered_data.

Definition parse_page_content_for_data (resp : response) : dict :=
  let discovered_data : dict := [] in
  let page_content := fst resp in
  let content_type :=
    lower (match snd resp with Some h => h | None => [] end) in
  result
    (and_then (attempt_direct page_content content_type discovered_data) (fun discovered_data =>
     and_then (attempt_scripts page_content discovered_data) (fun discovered_data =>
     and_then (return_if_nonempty discovered_data) (fun discovered_data =>
     and_then (attempt_code_blocks page_content discovered_data) (fun discovered_data =>
     and_then (return_if_nonempty discovered_data) (fun discovered_data =>
     let plain_text_content := plain_text page_content content_type in
     and_then (attempt_key_search plain_text_content discovered_data) (fun discovered_data =>
     and_then (return_if_nonempty discovered_data) (fun discovered_data =>
     attempt_npx plain_text_content discovered_data)))))))).

(** ** Accumulator: the body of [main] *)

(** [o == s] for an object [o] a [get] returned and a str [s]. *)
Definition eq_str (o : option json) (s : text) : bool :=
  match o with
  | Some (JStr s') => text_eqb s' s
  | _ => false
  end.

(** The candidate entry (lines 403-405). *)
Definition item_to_add (key : text) (value : dict) (url : text) : dict :=
  dict_set (dict_set value (T "id") (JStr key)) (T "source_url") (JStr url).

(** The duplicate check (lines 408-414); [item_to_add.get("id")] is [key]
    and [item_to_add.get("source_url")] is [url].  [None]: an existing
    item is not a dict and [existing_item.get] raises. *)
Fixpoint is_duplicate (all_mcp_servers_list : list json) (key url : text) : option bool :=
  match all_mcp_servers_list with
  | [] => Some false
  | JDict existing_item :: rest =>
      if eq_str (dict_get existing_item (T "id")) key
         && eq_str (dict_get existing_item (T "source_url")) url
      then Some true
      else is_duplicate rest key url
  | _ :: _ => None
  end.

(** The state of the loop over the extracted items: the collection, the
    count of items added for this URL and whether an exception left the
    loop. *)
Record merged : Type := {
  merged_list : list json;
  new_items_added : nat;
  raised : bool
}.

(** [for key, value in extracted_data_for_url.items()] (lines 398-421). *)
Fixpoint merge_items (items : dict) (url : text) (all_mcp_servers_list : list json)
         (new_items_added_for_this_url : nat) : merged :=
  match items with
  | [] => {| merged_list := all_mcp_servers_list;
             new_items_added := new_items_added_for_this_url;
             raised := false |}
  | (key, value) :: rest =>
      match value with
      | JDict value =>
          match is_duplicate all_mcp_servers_list key url with
          | None => {| merged_list := all_mcp_servers_list;
                       new_items_added := new_items_added_for_this_url;
                       raised := true |}
          | Some false =>
              merge_items rest url
                (all_mcp_servers_list ++ [JDict (item_to_add key value url)])
                (S new_items_added_for_this_url)
          | Some true =>
              merge_items rest url all_mcp_servers_list new_items_added_for_this_url
          end
      | _ => merge_items rest url all_mcp_servers_list new_items_added_for_this_url
      end
  end.

(** The merge of one extracted set for one URL. *)
Definition merge (discovered : dict) (url : text) (collection : list json) : merged :=
  merge_items discovered url collection 0.

(** What the loop over the URLs does, in order. *)
Inductive event : Type :=
| Skipped (url : text)
| Requested (url : text)
| Merged (url : text) (new_items : nat)
| Marked (url : text)
| Wrote (collection : list json)
| WriteFailed (collection : list json).

(** The state [main] threads through its loop.  [processed_urls] is a
    Python set of which the loop uses [add] and [in] only. *)
Record run_state : Type := {
  all_mcp_servers_list : list json;
  processed_urls : list text;
  urls_checked_count : nat;
  log : list event
}.

Definition in_set (url : text) (s : list text) : bool := existsb (text_eqb url) s.

Definition logged (st : run_state) (evs : list event) : run_state :=
  {| all_mcp_servers_list := all_mcp_servers_list st;
     processed_urls := processed_urls st;
     urls_checked_count := urls_checked_count st;
     log := log st ++ evs |}.

(** One turn of [for url in urls_to_check] (lines 372-446). *)
Definition process_url (st : run_state) (url : text) : run_state :=
  if in_set url (processed_urls st) then logged st [Skipped url]
  else
    let request_number := urls_checked_count st in
    let st := {| all_mcp_servers_list := all_mcp_servers_list st;
                 processed_urls := processed_urls st;
                 urls_checked_count := S (urls_checked_count st);
                 log := log st ++ [Requested url] |} in
    match http_get rt request_number url with
    | None => st
    | Some resp =>
        let extracted_data_for_url := parse_page_content_for_data resp in
        if nonempty extracted_data_for_url then
          let m := merge extracted_data_for_url url (all_mcp_servers_list st) in
          if raised m then
            {| all_mcp_servers_list := merged_list m;
               processed_urls := processed_urls st;
               urls_checked_count := urls_checked_count st;
               log := log st |}
          else if 0 <? new_items_added m then
            {| all_mcp_servers_list := merged_list m;
               processed_urls := url :: processed_urls st;
               urls_checked_count := urls_checked_count st;
               log := log st ++ [Merged url (new_items_added m); Marked url;
                                 if write_output rt (urls_checked_count st) (merged_list m)
                                 then Wrote (merged_list m)
                                 else WriteFailed (merged_list m)] |}
          else
            {| all_mcp_servers_list := merged_list m;
               processed_urls := processed_urls st;
               urls_checked_count := urls_checked_count st;
               log := log st ++ [Merged url (new_items_added m)] |}
        else st
    end.

(** The URLs already in the loaded collection (lines 360-365).  An object
    that is not a str never equals a URL, so the set keeps the strings;
    [None]: a [source_url] that is a list or a dict cannot be hashed and
    [main] ends with a [TypeError]. *)
Fixpoint load_processed_urls (items : list json) (processed : list text)
  : option (list text) :=
  match items with
  | [] => Some processed
  | JDict item :: rest =>
      match dict_get item (T "source_url") with
      | Some (JStr u) => load_processed_urls rest (u :: processed)
      | Some (JList _) | Some (JDict _) => None
      | _ => load_processed_urls rest processed
      end
  | _ :: rest => load_processed_urls rest processed
  end.

Definition run_loop (urls : list text) (st : run_state) : run_state :=
  fold_left process_url urls st.

(** [main], from the collection read from the output file, over the URLs
    to check. *)
Definition main_on (urls : list text) (loaded : list json) : option run_state :=
  match load_processed_urls loaded [] with
  | None => None
  | Some processed =>
      Some (run_loop urls
              {| all_mcp_servers_list := loaded;
                 processed_urls := processed;
                 urls_checked_count := 0;
                 log := [] |})
  end.

(** The list [main] has in place of the URL file. *)
Definition urls_to_check : list text :=
  [T "https://github.com/search?q=mcpServers";
   T "https://www.google.com/search?q=mcpServers+json";
   T "https://raw.githubusercontent.com/langchain-ai/langchain/master/pyproject.toml";
   T "https://example.com/nonexistent.json";
   T "https://github.com/danswer-ai/danswer/blob/main/backend/pyproject.toml";
   T "https://pypi.org/project/dbt-core/";
   T "https://www.npmjs.com/package/prettier";
   T "https://github.com/features/copilot";
   T "https://raw.githubusercontent.com/YagizV/mcp-server-runner/main/servers/gliner_v0.1.5_mcp_server.json";
   T "https://gist.github.com/YagizV/7f4a67b2461df3d488cc1f0b889dcb09";
   T "https://glama.zip/tools/servers.json";
   T "https://raw.githubusercontent.com/YagizV/mcp-server-runner/main/servers/gliner_v0.1.5_mcp_server.json"].

Definition main (loaded : list json) : option run_state := main_on urls_to_check loaded.

End Module.

(** ** The URL file: [extract_urls_from_text_file] *)

(** What the function takes from outside the repository. *)
Record UrlSource : Type := {
  (** [open(path, 'r', encoding='utf-8').read()]; [None] when the file is
      missing or cannot be read. *)
  read_file : text -> option text;
  (** [URLExtract().find_urls(content)]; [None] when the library raises. *)
  find_urls : text -> option (list text);
  (** [urlparse(url).path]; [None] when it raises. *)
  url_path : text -> option text;
  (** [list(set(urls))], in the order the set happens to iterate. *)
  list_of_set : list text -> list text
}.

Definition IGNORED_EXTENSIONS : list text :=
  [T ".ico"; T ".png"; T ".jpg"; T ".jpeg"; T ".gif"; T ".bmp"; T ".webp"; T ".svg";
   T ".css"; T ".js"].

(** [s.endswith(ext)] *)
Definition ends_with (ext s : text) : bool := starts_with (rev ext) (rev s).

(** [any(path_lower.endswith(ext) for ext in IGNORED_EXTENSIONS)] *)
Definition has_ignored_extension (path_lower : text) : bool :=
  existsb (fun ext => ends_with ext path_lower) IGNORED_EXTENSIONS.

(** The loop over [potential_urls_raw] (lines 297-307). *)
Fixpoint filter_urls (rt : Runtime) (src : UrlSource) (potential_urls_raw : list text)
  : list text :=
  match potential_urls_raw with
  | [] => []
  | url_str :: rest =>
      match url_path src url_str with
      | Some path =>
          if negb (has_ignored_extension (lower rt path))
          then url_str :: filter_urls rt src rest
          else filter_urls rt src rest
      | None => url_str :: filter_urls rt src rest
      end
  end.

Definition extract_urls_from_text_file (rt : Runtime) (src : UrlSource)
           (file_path_urls : text) : list text :=
  match read_file src file_path_urls with
  | None => []
  | Some file_content =>
      match find_urls src file_content with
      | None => []
      | Some potential_urls_raw =>
          list_of_set src (filter_urls rt src potential_urls_raw)
      end
  end.

(** A [list(set(...))]: the elements of the list, each once. *)
Definition enumerates_set (f : list text -> list text) : Prop :=
  forall l, NoDup (f l) /\ forall x, In x (f l) <-> In x l.

(** First occurrences, one order a set may iterate in. *)
Fixpoint first_occurrences (l : list text) : list text :=
  match l with
  | [] => []
  | x :: r => x :: filter (fun y => negb (text_eqb x y)) (first_occurrences r)
  end.

(** ** Vocabulary of the statements *)

(** No whitespace at either end. *)
Definition clean_edges (s : text) : Prop :=
  (forall c r, s = c :: r -> is_space c = false)
  /\ (forall c r, s = r ++ [c] -> is_space c = false).

Fixpoint distinct (l : list text) : bool :=
  match l with
  | [] => true
  | x :: r => negb (existsb (text_eqb x) r) && distinct r
  end.

(** No two keys of one mapping inside [j] become equal once stripped. *)
Fixpoint keys_stay_apart (j : json) : bool :=
  match j with
  | JDict d =>
      distinct (map (fun kv => strip (fst kv)) d)
      && forallb (fun kv => keys_stay_apart (snd kv)) d
  | JList l => forallb keys_stay_apart l
  | _ => true
  end.

(** The contract of the trimmer in the words of the specification: the
    same structure, every string stripped, whether a key or a value. *)
Inductive trimmed : json -> json -> Prop :=
| trimmed_null : trimmed JNull JNull
| trimmed_bool b : trimmed (JBool b) (JBool b)
| trimmed_int z : trimmed (JInt z) (JInt z)
| trimmed_float l : trimmed (JFloat l) (JFloat l)
| trimmed_str s : trimmed (JStr s) (JStr (strip s))
| trimmed_list l l' : Forall2 trimmed l l' -> trimmed (JList l) (JList l')
| trimmed_dict d d' :
    Forall2 (fun kv kv' => fst kv' = strip (fst kv) /\ trimmed (snd kv) (snd kv')) d d' ->
    trimmed (JDict d) (JDict d').

Definition is_dict (j : json) : bool :=
  match j with JDict _ => true | _ => false end.

(** The collection holds an entry with this [(id, source_url)] pair. *)
Definition has_entry (collection : list json) (name url : text) : bool :=
  existsb (fun e => match e with
                    | JDict e => eq_str (dict_get e (T "id")) name
                                 && eq_str (dict_get e (T "source_url")) url
                    | _ => false
                    end) collection.

(** The entries a merge is to append: one for each pair of the set whose
    body is a mapping and whose [(name, url)] pair the collection lacks. *)
Definition candidates (discovered : dict) (url : text) (collection : list json)
  : list json :=
  flat_map (fun kv => match snd kv with
                      | JDict body =>
                          if has_entry collection (fst kv) url then []
                          else [JDict (item_to_add (fst kv) body url)]
                      | _ => []
                      end) discovered.

(** The environment of a run over ASCII pages without markup: in a page
    with no [<] and no [&] the HTML parser finds no element and the text
    of the page is the page itself; [json5] is not installed; the Unicode
    tables are not consulted; the output file can always be written. *)
Definition ascii_plain_pages (get : nat -> text -> option (text * option text))
  : Runtime :=
  {| soup_script_strings := fun _ => Some [];
     soup_get_text := fun page => Some page;
     json5_loads := None;
     unicode_lower := fun s => s;
     unicode_alnum := fun _ => false;
     http_get := get;
     write_output := fun _ _ => true |}.

Definition offline : nat -> text -> option (text * option text) := fun _ _ => None.

(** The token list the npx strategy synthesizes for a package and a
    cleaned argument fragment. *)
Definition synthesized (package fragment : text) : json :=
  JList [JStr (T "npx"); JStr (T "-y"); JStr package; JStr (T "mcp"); JStr fragment].

(** The fragment as the strategy cleans it: stripped, its trailing
    punctuation removed, stripped again. *)
Definition cleaned (fragment : text) : text :=
  strip (re_sub trailing_punctuation (fun _ => []) (strip fragment)).

(** The package a match names and the record the strategy stores for it. *)
Definition key_of (m : rmatch) : text := strip (group (m_groups m) 1).
Definition record_of (m : rmatch) : json :=
  synthesized (strip (group (m_groups m) 1)) (cleaned (group (m_groups m) 2)).

(** A package identifier: a run of package characters, and after a slash
    a second run when the package is scoped. *)
Definition package_name (name : text) (scoped : option text) : text :=
  match scoped with
  | Some second => name ++ 47%N :: second
  | None => name
  end.

(** The invocation phrase for a package and an argument fragment, with or
    without the [mcp] token between them. *)
Definition phrase (package : text) (with_mcp : bool) (fragment : text) : text :=
  T "npx -y " ++ package ++ (if with_mcp then T " mcp " else T " ") ++ fragment.

(** The first character of [rest], if any, is outside the class. *)
Definition stops (p : N -> bool) (rest : text) : Prop :=
  match rest with
  | [] => True
  | c :: _ => p c = false
  end.

(** [r] matches [run] at the head of [run ++ rest] on the path the matcher
    tries first among those that succeed: whatever the continuation, if
    it succeeds on [rest] with the groups [caps'], the match succeeds
    with its result. *)
Definition takes (r : regex) (run rest : text) (caps caps' : captures) : Prop :=
  forall (R : Type) (k : text -> captures -> option R) (x : R),
    k rest caps' = Some x -> rx_match r (run ++ rest) caps k = Some x.

(** No whitespace at either end, as a test. *)
Definition edge_clean (s : text) : bool :=
  match s with [] => true | c :: _ => negb (is_space c) end
  && match rev s with [] => true | c :: _ => negb (is_space c) end.

(** Every string inside [j], key or value, has clean edges, and the keys
    of every mapping inside [j] are distinct. *)
Fixpoint well_trimmed (j : json) : bool :=
  match j with
  | JStr s => edge_clean s
  | JList l => forallb well_trimmed l
  | JDict d =>
      distinct (map fst d)
      && forallb (fun kv => edge_clean (fst kv) && well_trimmed (snd kv)) d
  | _ => true
  end.

(** The value of the last entry of [d] whose key strips to [k]. *)
Fixpoint last_stripped (d : dict) (k : text) : option json :=
  match d with
  | [] => None
  | (k0, v) :: r =>
      match last_stripped r k with
      | Some w => Some w
      | None => if text_eqb (strip k0) k then Some v else None
      end
  end.

(** Opening delimiters minus closing ones in [s], an opening one counted
    first as the scanner does. *)
Fixpoint depth (s : text) (open_char close_char : N) : Z :=
  match s with
  | [] => 0%Z
  | ch :: r =>
      ((if (ch =? open_char)%N then 1
        else if (ch =? close_char)%N then -1 else 0)
       + depth r open_char close_char)%Z
  end.

(** The [(id, source_url)] pairs of strings the entries of a collection
    carry. *)
Definition str_pairs (collection : list json) : list (text * text) :=
  flat_map (fun e => match e with
                     | JDict d =>
                         match dict_get d (T "id"), dict_get d (T "source_url") with
                         | Some (JStr i), Some (JStr u) => [(i, u)]
                         | _, _ => []
                         end
                     | _ => []
                     end) collection.

(** What the run has done to the output file.  [open(..., 'w')] empties
    the file before the dump starts, so after a write that raised the file
    may hold its old content, nothing or a part of the dump. *)
Inductive file_state : Type :=
| Untouched
| Holds (collection : list json)
| Unknown.

Fixpoint output_file (evs : list event) (f : file_state) : file_state :=
  match evs with
  | [] => f
  | Wrote c :: r => output_file r (Holds c)
  | WriteFailed _ :: r => output_file r Unknown
  | _ :: r => output_file r f
  end.

(** The body of a pair is a list. *)
Definition list_body (kv : text * json) : Prop :=
  match snd kv with JList _ => True | _ => False end.

(** What the turn of the n-th request extracts for a URL: the set the
    cascade returns for the response, the empty set when the request
    fails. *)
Definition extracted (rt : Runtime) (request_number : nat) (url : text) : dict :=
  match http_get rt request_number url with
  | Some resp => parse_page_content_for_data rt resp
  | None => []
  end.

(** The same environment with a disk that cannot be written. *)
Definition read_only_disk (rt : Runtime) : Runtime :=
  {| soup_script_strings := soup_script_strings rt;
     soup_get_text := soup_get_text rt;
     json5_loads := json5_loads rt;
     unicode_lower := unicode_lower rt;
     unicode_alnum := unicode_alnum rt;
     http_get := http_get rt;
     write_output := fun _ _ => false |}.

(** The same environment with other answers to the requests. *)
Definition with_http_get (rt : Runtime)
           (get : nat -> text -> option (text * option text)) : Runtime :=
  {| soup_script_strings := soup_script_strings rt;
     soup_get_text := soup_get_text rt;
     json5_loads := json5_loads rt;
     unicode_lower := unicode_lower rt;
     unicode_alnum := unicode_alnum rt;
     http_get := get;
     write_output := write_output rt |}.

(** One turn of the [while True] loop of the free-text strategy (lines
    229-255): the loop is left by [break], the function by [return], or
    the next turn starts at a new [current_search_idx]. *)
Inductive turn : Type :=
| Break
| Returned (discovered_data : dict)
| Next (current_search_idx : nat) (discovered_data : dict).

Definition key_search_turn (rt : Runtime) (plain_text_content : text)
           (current_search_idx : nat) (discovered_data : dict) : turn :=
  match find mcp_servers_key_str plain_text_content current_search_idx with
  | None => Break
  | Some key_occurrence_idx =>
      let after_key_str_idx := key_occurrence_idx + length mcp_servers_key_str in
      match re_search re_ws_colon (skipn after_key_str_idx plain_text_content) with
      | None => Next after_key_str_idx discovered_data
      | Some colon_match =>
          let start_of_value_idx := after_key_str_idx + m_end colon_match in
          match _find_balanced_structure plain_text_content start_of_value_idx 123 125 with
          | Some json_object_str =>
              if nonempty json_object_str then
                match _try_parse_json rt json_object_str with
                | JDict parsed_mcp_servers_obj =>
                    let discovered_data :=
                      py_update discovered_data
                        (trim_data_recursively (JDict parsed_mcp_servers_obj)) in
                    if nonempty discovered_data then Returned discovered_data
                    else Next after_key_str_idx discovered_data
                | _ => Next after_key_str_idx discovered_data
                end
              else Next after_key_str_idx discovered_data
          | None => Next after_key_str_idx discovered_data
          end
      end
  end.

(** The loop started at an index with a set ends after [n] turns, with
    the given outcome. *)
Inductive key_search_run (rt : Runtime) (plain_text_content : text)
  : nat -> dict -> nat -> flow -> Prop :=
| run_break idx d :
    key_search_turn rt plain_text_content idx d = Break ->
    key_search_run rt plain_text_content idx d 1 (Continue d)
| run_return idx d d' :
    key_search_turn rt plain_text_content idx d = Returned d' ->
    key_search_run rt plain_text_content idx d 1 (Return d')
| run_next idx d idx' d' n f :
    key_search_turn rt plain_text_content idx d = Next idx' d' ->
    key_search_run rt plain_text_content idx' d' n f ->
    key_search_run rt plain_text_content idx d (S n) f.

(** [u] is the [source_url] string of an entry of the collection. *)
Definition source_of (collection : list json) (u : text) : Prop :=
  exists e, In (JDict e) collection /\ dict_get e (T "source_url") = Some (JStr u).

(** What a strategy started on the empty set hands over: a well-trimmed
    set when it returns, the empty set when it goes on. *)
Definition flow_ok (f : flow) : Prop :=
  match f with
  | Return d => well_trimmed (JDict d) = true
  | Continue d => d = []
  end.

(** Every [source_url] of the collection can go into a Python set. *)
Definition hashable_urls (collection : list json) : bool :=
  forallb (fun e => match e with
                    | JDict d =>
                        match dict_get d (T "source_url") with
                        | Some (JList _) | Some (JDict _) => false
                        | _ => true
                        end
                    | _ => true
                    end) collection.

(** An entry the accumulator builds for [url]. *)
Definition entry_for (url : text) (e : json) : Prop :=
  exists name body, e = JDict (item_to_add name body url).

(** A script element the script-tag strategy passes over: no string, an
    empty one, one that is not strict JSON or not a mapping, or a mapping
    that neither heuristic accepts. *)
Definition no_script_match (script_content : option text) : Prop :=
  match script_content with
  | None => True
  | Some s =>
      nonempty s = false
      \/ match json_loads (strip s) with
         | Some (JDict p) =>
             designated_mapping p = None /\ script_looks_like_servers p = false
         | _ => True
         end
  end.

(** A fenced block the fenced-block strategy passes over. *)
Definition no_block_match (m : rmatch) : Prop :=
  match json_loads (strip (group (m_groups m) 1)) with
  | Some (JDict p) =>
      designated_mapping p = None /\ block_looks_like_servers p = false
  | _ => True
  end.

(** ASCII lower-casing of a text. *)
Definition ascii_lower (s : text) : text :=
  map (fun c => if is_upper c then (c + 32)%N else c) s.

(** A URL file and an extractor for it: the path of a URL on
    [https://example.com] is what follows the host. *)
Definition path_of_example (u : text) : option text :=
  if starts_with (T "https://example.com") u
  then Some (skipn 19 u) else None.

Definition example_source : UrlSource :=
  {| read_file := fun p =>
       if text_eqb p (T "urls.txt")
       then Some (T "https://example.com/a.json https://example.com/Logo.PNG https://example.com/a.json ftp://x")
       else None;
     find_urls := fun _ => Some [T "https://example.com/a.json";
                                 T "https://example.com/Logo.PNG";
                                 T "https://example.com/a.json";
                                 T "ftp://x"];
     url_path := path_of_example;
     list_of_set := first_occurrences |}.

(** * Properties *)



(** ** Text and dictionaries *)

Lemma text_eqb_eq (a b : text) : text_eqb a b = true <-> a = b.
Proof.
  revert b. induction a as [|x a IH]; intros [|y b]; simpl; split; intros H;
    try reflexivity; try discriminate.
  - apply andb_true_iff in H. destruct H as [Hx Hr].
    apply N.eqb_eq in Hx. apply IH in Hr. now subst.
  - injection H as -> ->. rewrite N.eqb_refl. simpl. now apply IH.
Qed.

Lemma text_eqb_refl (a : text) : text_eqb a a = true.
Proof. now apply text_eqb_eq. Qed.

Lemma text_eqb_neq (a b : text) : text_eqb a b = false <-> a <> b.
Proof.
  split.
  - intros H E. apply text_eqb_eq in E. congruence.
  - intros H. destruct (text_eqb a b) eqn:E; [|reflexivity].
    apply text_eqb_eq in E. contradiction.
Qed.

Lemma existsb_text_In (x : text) (l : list text) :
  existsb (text_eqb x) l = true <-> In x l.
Proof.
  rewrite existsb_exists. split.
  - intros [y [Hy E]]. apply text_eqb_eq in E. now subst.
  - intros H. exists x. split; [assumption | apply text_eqb_refl].
Qed.

Lemma distinct_NoDup (l : list text) : distinct l = true <-> NoDup l.
Proof.
  induction l as [|x r IH]; simpl.
  - split; [constructor | reflexivity].
  - rewrite andb_true_iff, negb_true_iff, IH. split.
    + intros [Hx Hr]. constructor; [|assumption].
      intros Hin. apply existsb_text_In in Hin. congruence.
    + intros H. inversion H as [|? ? Hx Hr]; subst. split; [|assumption].
      destruct (existsb (text_eqb x) r) eqn:E; [|reflexivity].
      apply existsb_text_In in E. contradiction.
Qed.

Lemma dict_get_set_same (d : dict) (k : text) (v : json) :
  dict_get (dict_set d k v) k = Some v.
Proof.
  induction d as [|[k' v'] r IH]; simpl.
  - now rewrite text_eqb_refl.
  - destruct (text_eqb k' k) eqn:E; simpl; rewrite E; [reflexivity | exact IH].
Qed.

Lemma dict_get_set_other (d : dict) (k k' : text) (v : json) :
  k <> k' -> dict_get (dict_set d k v) k' = dict_get d k'.
Proof.
  intros Hne. induction d as [|[k0 v0] r IH]; simpl.
  - apply text_eqb_neq in Hne. now rewrite Hne.
  - destruct (text_eqb k0 k) eqn:E; simpl.
    + apply text_eqb_eq in E. subst k0.
      apply text_eqb_neq in Hne. now rewrite Hne.
    + destruct (text_eqb k0 k'); [reflexivity | exact IH].
Qed.

Lemma dict_set_fresh (d : dict) (k : text) (v : json) :
  ~ In k (keys d) -> dict_set d k v = d ++ [(k, v)].
Proof.
  induction d as [|[k' v'] r IH]; simpl; intros Hnin; [reflexivity|].
  destruct (text_eqb k' k) eqn:E.
  - apply text_eqb_eq in E. subst. exfalso. apply Hnin. now left.
  - f_equal. apply IH. intros Hin. apply Hnin. now right.
Qed.

Lemma dict_set_length (d : dict) (k : text) (v : json) :
  length (dict_set d k v) <= S (length d).
Proof.
  induction d as [|[k' v'] r IH]; simpl; [lia|].
  destruct (text_eqb k' k); simpl; lia.
Qed.

Lemma dict_set_Forall (Q : text * json -> Prop) (d : dict) (k : text) (v : json) :
  Forall Q d -> Q (k, v) -> Forall Q (dict_set d k v).
Proof.
  intros Hd Hq. induction d as [|[k' v'] r IH]; simpl.
  - now constructor.
  - inversion Hd as [|? ? H1 Hr]; subst. destruct (text_eqb k' k) eqn:E.
    + apply text_eqb_eq in E. subst. now constructor.
    + constructor; [assumption | now apply IH].
Qed.

Lemma dict_get_In (d : dict) (k : text) (v : json) :
  NoDup (keys d) -> In (k, v) d -> dict_get d k = Some v.
Proof.
  induction d as [|[k' v'] r IH]; simpl; intros Hnd Hin; [contradiction|].
  inversion Hnd as [|? ? Hk Hr]; subst.
  destruct Hin as [E | Hin].
  - injection E as -> ->. now rewrite text_eqb_refl.
  - destruct (text_eqb k' k) eqn:E.
    + apply text_eqb_eq in E. subst. exfalso. apply Hk.
      change (In (fst (k, v)) (map fst r)). now apply in_map.
    + now apply IH.
Qed.

(** ** Recursive trimmer *)

Lemma trim_dict_eq (d : dict) :
  trim_data_recursively (JDict d) = JDict (trim_items d []).
Proof. reflexivity. Qed.

Lemma lstrip_suffix (s : text) : exists ws, s = ws ++ lstrip s /\ forallb is_space ws = true.
Proof.
  induction s as [|c r IH]; simpl.
  - now exists [].
  - destruct (is_space c) eqn:E.
    + destruct IH as [ws [Hs Hw]]. exists (c :: ws). simpl. rewrite E, Hw.
      split; [now f_equal | reflexivity].
    + now exists [].
Qed.

Lemma lstrip_head (s : text) (c : N) (r : text) :
  lstrip s = c :: r -> is_space c = false.
Proof.
  induction s as [|x s IH]; simpl; [discriminate|].
  destruct (is_space x) eqn:E; [exact IH|].
  intros H. injection H as <- _. exact E.
Qed.

Lemma rstrip_prefix (s : text) : exists ws, s = rstrip s ++ ws.
Proof.
  unfold rstrip. destruct (lstrip_suffix (rev s)) as [ws [Hs _]].
  exists (rev ws). rewrite <- rev_app_distr, <- Hs. now rewrite rev_involutive.
Qed.

Lemma rstrip_last (s : text) (c : N) (r : text) :
  rstrip s = r ++ [c] -> is_space c = false.
Proof.
  unfold rstrip. intros H.
  apply (f_equal (@rev N)) in H. rewrite rev_involutive, rev_app_distr in H.
  simpl in H. now apply lstrip_head in H.
Qed.

Lemma strip_clean_edges (s : text) : clean_edges (strip s).
Proof.
  unfold strip. split.
  - intros c r H. destruct (rstrip_prefix (lstrip s)) as [ws Hp].
    rewrite H in Hp. simpl in Hp. now apply lstrip_head in Hp.
  - intros c r H. now apply rstrip_last in H.
Qed.

Lemma trim_items_length (d acc : dict) :
  length (trim_items d acc) <= length acc + length d.
Proof.
  revert acc. induction d as [|[k v] r IH]; intros acc; simpl; [lia|].
  specialize (IH (dict_set acc (strip k) (trim_data_recursively v))).
  pose proof (dict_set_length acc (strip k) (trim_data_recursively v)). lia.
Qed.

Lemma trim_items_apart (d acc : dict) :
  NoDup (keys acc ++ map (fun kv => strip (fst kv)) d) ->
  trim_items d acc
  = acc ++ map (fun kv => (strip (fst kv), trim_data_recursively (snd kv))) d.
Proof.
  revert acc. induction d as [|[k v] r IH]; intros acc Hnd; simpl.
  - now rewrite app_nil_r.
  - simpl in Hnd. rewrite dict_set_fresh.
    + rewrite IH.
      * now rewrite <- app_assoc.
      * unfold keys in *. rewrite map_app. simpl. now rewrite <- app_assoc.
    + apply NoDup_remove_2 in Hnd. intros Hin. apply Hnd.
      apply in_or_app. now left.
Qed.

Lemma trimmed_when_apart (x : json) :
  keys_stay_apart x = true -> trimmed x (trim_data_recursively x).
Proof.
  induction x as [| b | z | l | s | l IH | d IH] using json_rect'; intros Hk;
    try (simpl; constructor; fail).
  - simpl. constructor.
    simpl in Hk. induction l as [|y r IHr]; simpl; [constructor|].
    apply andb_true_iff in Hk. destruct Hk as [Hy Hr].
    inversion IH as [|? ? Py Pr]; subst.
    constructor; [now apply Py | now apply IHr].
  - rewrite trim_dict_eq. simpl in Hk. apply andb_true_iff in Hk.
    destruct Hk as [Hd Hv]. apply distinct_NoDup in Hd.
    rewrite trim_items_apart by exact Hd. simpl. constructor.
    clear Hd. induction d as [|[k v] r IHr]; simpl; [constructor|].
    simpl in Hv. apply andb_true_iff in Hv. destruct Hv as [Hv Hr].
    inversion IH as [|? ? Pv Pr]; subst.
    constructor; [split; [reflexivity | now apply Pv] | now apply IHr].
Qed.

(** C5 (as amended).  The trimmer returns the structure of its input with
    every string stripped, whether a key or a value, for every input in
    which no two keys of one mapping become equal once stripped: then a
    mapping keeps its number of entries, a sequence its length and order,
    and the other values pass through.  For every mapping the result is a
    mapping with at most as many entries, and a stripped string has no
    whitespace at either end. *)
Theorem trim_data_recursively_structure :
  (forall x, keys_stay_apart x = true -> trimmed x (trim_data_recursively x))
  /\ (forall d, exists d',
         trim_data_recursively (JDict d) = JDict d' /\ length d' <= length d)
  /\ (forall l, trim_data_recursively (JList l) = JList (map trim_data_recursively l))
  /\ (forall s, trim_data_recursively (JStr s) = JStr (strip s) /\ clean_edges (strip s)).
Proof.
  split; [exact trimmed_when_apart|]. split; [|split].
  - intros d. exists (trim_items d []). split; [apply trim_dict_eq|].
    apply (trim_items_length d []).
  - reflexivity.
  - intros s. split; [reflexivity | apply strip_clean_edges].
Qed.

Lemma trim_data_recursively_structure_witness :
  let x := JDict [(T " weather ",
                   JDict [(T "command", JStr (T " python "));
                          (T "args", JList [JStr (T "weather.py "); JInt 1])])] in
  keys_stay_apart x = true
  /\ trimmed x (trim_data_recursively x)
  /\ trim_data_recursively x
     = JDict [(T "weather",
               JDict [(T "command", JStr (T "python"));
                      (T "args", JList [JStr (T "weather.py"); JInt 1])])].
Proof.
  intros x. split; [reflexivity|]. split; [|reflexivity].
  apply (proj1 trim_data_recursively_structure). reflexivity.
Defined.

(** Two keys that differ only by surrounding whitespace are merged: the
    mapping loses an entry, so the result is not the input's structure. *)
Lemma trim_merges_colliding_keys :
  let x := JDict [(T " a", JInt 1); (T "a", JInt 2)] in
  trim_data_recursively x = JDict [(T "a", JInt 2)]
  /\ ~ trimmed x (trim_data_recursively x).
Proof.
  split; [reflexivity|].
  intros H. inversion H as [| | | | | |d d' HF]; subst.
  inversion HF as [|? ? ? ? _ HF']; subst. inversion HF'.
Qed.

(** ** The two whole-mapping heuristics *)

Lemma key_check_loop_forallb (d sub : dict) :
  (forall k v, In (k, v) sub -> dict_get d k = Some v) ->
  key_check_loop (keys sub) d
  = forallb (fun val => match val with
                        | JDict v => command_or_args v
                        | _ => false
                        end) (map snd sub).
Proof.
  induction sub as [|[k v] r IH]; intros Hget; simpl; [reflexivity|].
  rewrite (Hget k v) by now left.
  rewrite <- IH by (intros k' v' Hin; apply Hget; now right).
  destruct v; try reflexivity.
  unfold command_or_args.
  destruct (is_str_or_list _), (is_list _); reflexivity.
Qed.

(** C4 (as amended).  On a mapping (its keys are distinct), the
    whole-block heuristic of the fenced-block strategy accepts the
    mappings the script-tag heuristic (b) accepts in which, in addition,
    every value has a command field. *)
Theorem block_heuristic_is_script_heuristic_with_command (d : dict) :
  NoDup (keys d) ->
  block_looks_like_servers d
  = script_looks_like_servers d && block_values_have_command d.
Proof.
  intros Hnd. unfold block_looks_like_servers, script_looks_like_servers.
  rewrite (key_check_loop_forallb d d) by (intros k v; now apply dict_get_In).
  apply andb_comm.
Qed.

Lemma block_heuristic_is_script_heuristic_with_command_witness :
  let d := [(T "search", JDict [(T "command", JList [JStr (T "run")])]);
            (T "fetch", JDict [(T "command", JNull); (T "args", JList [JStr (T "x")])])] in
  NoDup (keys d)
  /\ block_looks_like_servers d
     = script_looks_like_servers d && block_values_have_command d.
Proof.
  intros d.
  assert (Hnd : NoDup (keys d)) by (apply distinct_NoDup; reflexivity).
  split; [exact Hnd|].
  apply (block_heuristic_is_script_heuristic_with_command d Hnd).
Defined.

(** A mapping whose one value has an args list and no command field: the
    script-tag heuristic accepts it, the fenced-block heuristic does not. *)
Lemma args_only_mapping_splits_heuristics :
  let d := [(T "fetch", JDict [(T "args", JList [JStr (T "x")])])] in
  NoDup (keys d)
  /\ script_looks_like_servers d = true
  /\ block_looks_like_servers d = false.
Proof.
  split; [apply distinct_NoDup; reflexivity|]. split; reflexivity.
Qed.

(** ** Accumulator *)

Lemma id_field (name url : text) (body : dict) :
  dict_get (item_to_add name body url) (T "id") = Some (JStr name).
Proof.
  unfold item_to_add. rewrite dict_get_set_other by discriminate.
  apply dict_get_set_same.
Qed.

Lemma source_url_field (name url : text) (body : dict) :
  dict_get (item_to_add name body url) (T "source_url") = Some (JStr url).
Proof. unfold item_to_add. apply dict_get_set_same. Qed.

Lemma other_fields (name url : text) (body : dict) (f : text) :
  f <> T "id" -> f <> T "source_url" ->
  dict_get (item_to_add name body url) f = dict_get body f.
Proof.
  intros H1 H2. unfold item_to_add.
  rewrite dict_get_set_other by congruence.
  now rewrite dict_get_set_other by congruence.
Qed.

Lemma eq_str_spec (o : option json) (s : text) :
  eq_str o s = true <-> o = Some (JStr s).
Proof.
  unfold eq_str. destruct o as [[]|]; try (split; [discriminate | congruence]).
  rewrite text_eqb_eq. split; [now intros -> | congruence].
Qed.

Lemma is_duplicate_dicts (C : list json) (k u : text) :
  forallb is_dict C = true -> is_duplicate C k u = Some (has_entry C k u).
Proof.
  induction C as [|e r IH]; simpl; intros H; [reflexivity|].
  apply andb_true_iff in H. destruct H as [He Hr].
  destruct e; try discriminate.
  destruct (eq_str _ k && eq_str _ u); [reflexivity | now apply IH].
Qed.

Lemma is_duplicate_false (C : list json) (k u : text) :
  is_duplicate C k u = Some false -> forallb is_dict C = true.
Proof.
  induction C as [|e r IH]; simpl; intros H; [reflexivity|].
  destruct e; try discriminate.
  destruct (eq_str _ k && eq_str _ u); [discriminate | now apply IH].
Qed.

Lemma forallb_is_dict_snoc (C : list json) (e : dict) :
  forallb is_dict C = true -> forallb is_dict (C ++ [JDict e]) = true.
Proof. intros H. rewrite forallb_app, H. reflexivity. Qed.

Lemma has_entry_snoc (C : list json) (name url k u : text) (body : dict) :
  has_entry (C ++ [JDict (item_to_add name body url)]) k u
  = has_entry C k u || (text_eqb name k && text_eqb url u).
Proof.
  unfold has_entry. rewrite existsb_app. simpl.
  rewrite id_field, source_url_field. simpl. now rewrite orb_false_r.
Qed.

Lemma candidates_ext (items : dict) (url : text) (C1 C2 : list json) :
  (forall k, In k (keys items) -> has_entry C1 k url = has_entry C2 k url) ->
  candidates items url C1 = candidates items url C2.
Proof.
  induction items as [|[k v] r IH]; intros H; [reflexivity|].
  unfold candidates in *. simpl. rewrite IH by (intros k' Hk; apply H; now right).
  f_equal. destruct v; try reflexivity. now rewrite (H k) by now left.
Qed.

Lemma merge_items_candidates (items : dict) (url : text) (C : list json) (n : nat) :
  NoDup (keys items) -> forallb is_dict C = true ->
  merge_items items url C n
  = {| merged_list := C ++ candidates items url C;
       new_items_added := n + length (candidates items url C);
       raised := false |}.
Proof.
  revert C n. induction items as [|[k v] r IH]; intros C n Hnd HC.
  - simpl. now rewrite app_nil_r, Nat.add_0_r.
  - simpl in Hnd. inversion Hnd as [|? ? Hk Hr]; subst.
    assert (Hskip : candidates ((k, v) :: r) url C
                    = (match v with
                       | JDict body => if has_entry C k url then []
                                       else [JDict (item_to_add k body url)]
                       | _ => []
                       end) ++ candidates r url C) by reflexivity.
    rewrite Hskip. simpl.
    destruct v; try (simpl; now apply IH).
    rewrite (is_duplicate_dicts C k url HC).
    destruct (has_entry C k url) eqn:E; [simpl; now apply IH|].
    rewrite IH by (try assumption; now apply forallb_is_dict_snoc).
    rewrite (candidates_ext r url (C ++ [JDict (item_to_add k d url)]) C).
    + rewrite <- app_assoc. simpl. f_equal. lia.
    + intros k' Hin. rewrite has_entry_snoc.
      assert (Hne : text_eqb k k' = false).
      { apply text_eqb_neq. intros ->. contradiction. }
      rewrite Hne. simpl. apply orb_false_r.
Qed.

(** The pairs the accumulator stores.  For every set of pairs with
    distinct names, every source URL and every collection of entries, the
    accumulator appends,
    in the order of the set, the candidate of each pair whose body is a
    mapping and whose [(name, url)] pair no entry of the collection has,
    and counts them.  The candidate has [id] the name, [source_url] the
    URL and every other field as the body has it. *)
Theorem merge_appends_mapping_bodies (D : dict) (url : text) (C : list json) :
  NoDup (keys D) -> forallb is_dict C = true ->
  merge D url C
  = {| merged_list := C ++ candidates D url C;
       new_items_added := length (candidates D url C);
       raised := false |}
  /\ forall name body, In (name, JDict body) D ->
       dict_get (item_to_add name body url) (T "id") = Some (JStr name)
       /\ dict_get (item_to_add name body url) (T "source_url") = Some (JStr url)
       /\ (forall f, f <> T "id" -> f <> T "source_url" ->
             dict_get (item_to_add name body url) f = dict_get body f)
       /\ (has_entry C name url = false ->
             In (JDict (item_to_add name body url)) (candidates D url C)).
Proof.
  intros Hnd HC. split.
  - unfold merge. now rewrite merge_items_candidates.
  - intros name body Hin. split; [apply id_field|].
    split; [apply source_url_field|]. split; [apply other_fields|].
    intros Hfresh. unfold candidates. apply in_flat_map.
    exists (name, JDict body). split; [assumption|]. simpl.
    rewrite Hfresh. now left.
Qed.

Lemma merge_appends_mapping_bodies_witness :
  let D := [(T "weather", JDict [(T "command", JStr (T "python"))]);
            (T "search", JDict [(T "id", JInt 7)])] in
  let url := T "https://example.com/a" in
  let C := [JDict [(T "id", JStr (T "search")); (T "source_url", JStr url)]] in
  NoDup (keys D) /\ forallb is_dict C = true
  /\ merge D url C
     = {| merged_list :=
            C ++ [JDict [(T "command", JStr (T "python"));
                         (T "id", JStr (T "weather"));
                         (T "source_url", JStr url)]];
          new_items_added := 1;
          raised := false |}.
Proof.
  intros D url C.
  assert (Hnd : NoDup (keys D)) by (apply distinct_NoDup; reflexivity).
  assert (HC : forallb is_dict C = true) by reflexivity.
  split; [exact Hnd|]. split; [exact HC|].
  exact (proj1 (merge_appends_mapping_bodies D url C Hnd HC)).
Defined.

Lemma merge_items_not_all_dicts (items : dict) (u : text) (C : list json) (n : nat) :
  forallb is_dict C = false ->
  merged_list (merge_items items u C n) = C
  /\ new_items_added (merge_items items u C n) = n.
Proof.
  intros HC. revert n. induction items as [|[k v] r IH]; intros n; simpl.
  - now split.
  - destruct v; try apply IH.
    destruct (is_duplicate C k u) as [[|]|] eqn:E.
    + apply IH.
    + apply is_duplicate_false in E. congruence.
    + now split.
Qed.

Lemma merge_items_all_dicts (items : dict) (u : text) (C : list json) (n : nat) :
  forallb is_dict C = true ->
  raised (merge_items items u C n) = false
  /\ forallb is_dict (merged_list (merge_items items u C n)) = true
  /\ (forall k, has_entry C k u = true ->
        has_entry (merged_list (merge_items items u C n)) k u = true)
  /\ (forall k v, In (k, JDict v) items ->
        has_entry (merged_list (merge_items items u C n)) k u = true).
Proof.
  revert C n. induction items as [|[k v] r IH]; intros C n HC.
  - simpl. repeat split; try assumption; try tauto.
  - assert (Hskip : forall C' n',
               forallb is_dict C' = true ->
               (forall k0, has_entry C k0 u = true -> has_entry C' k0 u = true) ->
               (forall body, v = JDict body -> has_entry C' k u = true) ->
               raised (merge_items r u C' n') = false
               /\ forallb is_dict (merged_list (merge_items r u C' n')) = true
               /\ (forall k0, has_entry C k0 u = true ->
                     has_entry (merged_list (merge_items r u C' n')) k0 u = true)
               /\ (forall k0 v0, In (k0, JDict v0) ((k, v) :: r) ->
                     has_entry (merged_list (merge_items r u C' n')) k0 u = true)).
    { intros C' n' HC' Hmono Hk.
      destruct (IH C' n' HC') as [Hr [Hd [Hm Hin]]].
      repeat split; try assumption.
      - intros k0 H0. apply Hm. now apply Hmono.
      - intros k0 v0 [E | Hin0].
        + injection E as <- ->. apply Hm. now apply (Hk v0).
        + now apply (Hin k0 v0). }
    simpl. destruct v;
      try (apply Hskip; [assumption | tauto | discriminate]).
    rewrite (is_duplicate_dicts C k u HC).
    destruct (has_entry C k u) eqn:E.
    + apply Hskip; [assumption | tauto | intros; assumption].
    + apply Hskip.
      * now apply forallb_is_dict_snoc.
      * intros k0 H0. rewrite has_entry_snoc, H0. reflexivity.
      * intros body _. rewrite has_entry_snoc, !text_eqb_refl. apply orb_true_r.
Qed.

Lemma merge_items_all_present (items : dict) (u : text) (L : list json) (n : nat) :
  forallb is_dict L = true ->
  (forall k v, In (k, JDict v) items -> has_entry L k u = true) ->
  merge_items items u L n
  = {| merged_list := L; new_items_added := n; raised := false |}.
Proof.
  intros HL. revert n. induction items as [|[k v] r IH]; intros n Hin; [reflexivity|].
  assert (Hr : forall k0 v0, In (k0, JDict v0) r -> has_entry L k0 u = true)
    by (intros k0 v0 H0; apply (Hin k0 v0); now right).
  simpl. destruct v; try (now apply IH).
  rewrite (is_duplicate_dicts L k u HL), (Hin k d) by now left.
  now apply IH.
Qed.

Lemma merge_items_grows (items : dict) (u : text) (C : list json) (n : nat) :
  exists added,
    merged_list (merge_items items u C n) = C ++ added
    /\ new_items_added (merge_items items u C n) = n + length added.
Proof.
  revert C n. induction items as [|[k v] r IH]; intros C n; simpl.
  - exists []. now rewrite app_nil_r, Nat.add_0_r.
  - destruct v; try apply IH.
    destruct (is_duplicate C k u) as [[|]|].
    + apply IH.
    + destruct (IH (C ++ [JDict (item_to_add k d u)]) (S n)) as [added [H1 H2]].
      exists (JDict (item_to_add k d u) :: added).
      rewrite H1, H2, <- app_assoc. simpl. split; [reflexivity | lia].
    + exists []. now rewrite app_nil_r, Nat.add_0_r.
Qed.

Lemma merge_raised_unchanged (D : dict) (u : text) (C : list json) :
  raised (merge D u C) = true -> merged_list (merge D u C) = C.
Proof.
  unfold merge. intros Hr. destruct (forallb is_dict C) eqn:E.
  - destruct (merge_items_all_dicts D u C 0 E) as [Hf _]. congruence.
  - apply (merge_items_not_all_dicts D u C 0 E).
Qed.

(** C6 (as amended).  Merging the same set for the same URL a second time
    appends nothing and leaves the collection as the first merge left it,
    for every set, URL and collection.  Merging a record whose body is a
    mapping, under a name the collection has for URL [u], for another URL
    [u'] for which the collection of entries has no entry of that name,
    appends exactly the one candidate. *)
Theorem merge_deduplicates :
  (forall D u C,
      new_items_added (merge D u (merged_list (merge D u C))) = 0
      /\ merged_list (merge D u (merged_list (merge D u C)))
         = merged_list (merge D u C))
  /\ (forall name body u u' C,
         forallb is_dict C = true ->
         has_entry C name u = true ->
         u <> u' ->
         has_entry C name u' = false ->
         merge [(name, JDict body)] u' C
         = {| merged_list := C ++ [JDict (item_to_add name body u')];
              new_items_added := 1;
              raised := false |}).
Proof.
  split.
  - intros D u C. unfold merge. destruct (forallb is_dict C) eqn:E.
    + destruct (merge_items_all_dicts D u C 0 E) as [_ [Hd [_ Hin]]].
      now rewrite (merge_items_all_present D u _ 0 Hd Hin).
    + destruct (merge_items_not_all_dicts D u C 0 E) as [H1 _].
      rewrite H1. destruct (merge_items_not_all_dicts D u C 0 E). now split.
  - intros name body u u' C HC _ _ Hfresh. unfold merge. simpl.
    now rewrite (is_duplicate_dicts C name u' HC), Hfresh.
Qed.

Lemma merge_deduplicates_witness :
  let a := T "https://a.example/readme" in
  let b := T "https://b.example/readme" in
  let body := [(T "command", JStr (T "python"))] in
  let C := [JDict (item_to_add (T "weather") body a)] in
  forallb is_dict C = true /\ has_entry C (T "weather") a = true /\ a <> b
  /\ has_entry C (T "weather") b = false
  /\ merge [(T "weather", JDict body)] b C
     = {| merged_list := C ++ [JDict (item_to_add (T "weather") body b)];
          new_items_added := 1;
          raised := false |}.
Proof.
  intros a b body C.
  assert (H1 : forallb is_dict C = true) by reflexivity.
  assert (H2 : has_entry C (T "weather") a = true) by reflexivity.
  assert (H3 : a <> b) by discriminate.
  assert (H4 : has_entry C (T "weather") b = false) by reflexivity.
  repeat (split; [assumption|]).
  exact (proj2 merge_deduplicates (T "weather") body a b C H1 H2 H3 H4).
Defined.

(** A name the collection has for one URL, merged for another URL: nothing
    is appended when the body of the record is a list, as the records of
    the npx strategy are, nor when the collection has the name for the
    other URL as well. *)
Lemma same_name_other_url_not_appended :
  let a := T "https://a.example/readme" in
  let b := T "https://b.example/readme" in
  let C := [JDict (item_to_add (T "@acme/tool") [] a)] in
  let record := JList [JStr (T "npx"); JStr (T "-y"); JStr (T "@acme/tool");
                       JStr (T "mcp"); JStr (T "run")] in
  has_entry C (T "@acme/tool") a = true /\ a <> b
  /\ merge [(T "@acme/tool", record)] b C
     = {| merged_list := C; new_items_added := 0; raised := false |}
  /\ (let C2 := C ++ [JDict (item_to_add (T "@acme/tool") [] b)] in
      has_entry C2 (T "@acme/tool") a = true
      /\ merge [(T "@acme/tool", JDict [])] b C2
         = {| merged_list := C2; new_items_added := 0; raised := false |}).
Proof.
  intros a b C record.
  split; [reflexivity|]. split; [discriminate|]. split; [reflexivity|].
  split; reflexivity.
Qed.

(** ** The loop over the URLs *)

Lemma in_set_In (u : text) (l : list text) : in_set u l = true <-> In u l.
Proof. apply existsb_text_In. Qed.

Lemma process_url_marks (rt : Runtime) (st : run_state) (url : text) :
  (processed_urls (process_url rt st url) = url :: processed_urls st
   /\ in_set url (processed_urls st) = false
   /\ length (all_mcp_servers_list st)
      < length (all_mcp_servers_list (process_url rt st url)))
  \/ (processed_urls (process_url rt st url) = processed_urls st
      /\ all_mcp_servers_list (process_url rt st url) = all_mcp_servers_list st).
Proof.
  unfold process_url. destruct (in_set url (processed_urls st)) eqn:Hin.
  - right. now split.
  - cbn [urls_checked_count all_mcp_servers_list processed_urls log].
    destruct (http_get rt _ url) as [resp|]; [|right; now split].
    destruct (nonempty (parse_page_content_for_data rt resp)); [|right; now split].
    set (D := parse_page_content_for_data rt resp).
    destruct (raised (merge D url (all_mcp_servers_list st))) eqn:Hr.
    + right. split; [reflexivity|]. cbn. now apply merge_raised_unchanged.
    + destruct (merge_items_grows D url (all_mcp_servers_list st) 0)
        as [added [Hl Hn]]. fold (merge D url (all_mcp_servers_list st)) in Hl, Hn.
      destruct (0 <? new_items_added (merge D url (all_mcp_servers_list st))) eqn:Hc.
      * left. cbn. split; [reflexivity|]. split; [reflexivity|].
        apply Nat.ltb_lt in Hc. rewrite Hl, length_app. lia.
      * right. cbn. split; [reflexivity|].
        apply Nat.ltb_ge in Hc. rewrite Hl.
        destruct added; [apply app_nil_r | simpl in Hn; lia].
Qed.

Lemma process_url_keeps (rt : Runtime) (st : run_state) (url u : text) :
  in_set u (processed_urls st) = true ->
  in_set u (processed_urls (process_url rt st url)) = true.
Proof.
  intros H. destruct (process_url_marks rt st url) as [[E _] | [E _]]; rewrite E.
  - simpl. rewrite H. apply orb_true_r.
  - exact H.
Qed.

Lemma no_request_in (u : text) (evs : list event) :
  forallb (fun ev => match ev with
                     | Requested v => negb (text_eqb v u)
                     | _ => true
                     end) evs = true ->
  ~ In (Requested u) evs.
Proof.
  intros H Hin. rewrite forallb_forall in H. specialize (H _ Hin).
  simpl in H. now rewrite text_eqb_refl in H.
Qed.

Lemma process_url_no_request (rt : Runtime) (st : run_state) (url u : text) :
  in_set u (processed_urls st) = true ->
  exists evs, log (process_url rt st url) = log st ++ evs /\ ~ In (Requested u) evs.
Proof.
  intros H. unfold process_url. destruct (in_set url (processed_urls st)) eqn:Hin.
  - exists [Skipped url]. split; [reflexivity | now apply no_request_in].
  - assert (Hne : text_eqb url u = false)
      by (apply text_eqb_neq; intros ->; congruence).
    cbn [urls_checked_count all_mcp_servers_list processed_urls log].
    assert (H1 : exists evs, log st ++ [Requested url] = log st ++ evs
                             /\ ~ In (Requested u) evs).
    { exists [Requested url]. split; [reflexivity|].
      apply no_request_in. simpl. now rewrite Hne. }
    destruct (http_get rt _ url) as [resp|]; [|exact H1].
    destruct (nonempty (parse_page_content_for_data rt resp)); [|exact H1].
    destruct (raised _); [exact H1|].
    destruct (0 <? _); cbn [log]; rewrite <- app_assoc; eexists;
      (split; [reflexivity|]); apply no_request_in; simpl;
      try destruct (write_output rt _ _); now rewrite Hne.
Qed.

Lemma process_url_skip (rt : Runtime) (st : run_state) (url : text) :
  in_set url (processed_urls st) = true ->
  process_url rt st url = logged st [Skipped url].
Proof. intros H. unfold process_url. now rewrite H. Qed.

Lemma process_url_fetch (rt : Runtime) (st : run_state) (url : text) :
  in_set url (processed_urls st) = false ->
  exists added evs,
    merged_list (merge (extracted rt (urls_checked_count st) url) url
                       (all_mcp_servers_list st))
    = all_mcp_servers_list st ++ added
    /\ all_mcp_servers_list (process_url rt st url) = all_mcp_servers_list st ++ added
    /\ urls_checked_count (process_url rt st url) = S (urls_checked_count st)
    /\ log (process_url rt st url) = log st ++ Requested url :: evs
    /\ (forall v, ~ In (Requested v) evs)
    /\ (added <> [] -> processed_urls (process_url rt st url) = url :: processed_urls st)
    /\ (added = [] -> processed_urls (process_url rt st url) = processed_urls st).
Proof.
  intros Hin. unfold process_url, extracted. rewrite Hin. cbv zeta.
  cbn [urls_checked_count all_mcp_servers_list processed_urls log].
  assert (Hsame : forall D,
             merged_list (merge D url (all_mcp_servers_list st)) = all_mcp_servers_list st ->
             exists added evs,
               merged_list (merge D url (all_mcp_servers_list st))
               = all_mcp_servers_list st ++ added
               /\ all_mcp_servers_list st = all_mcp_servers_list st ++ added
               /\ S (urls_checked_count st) = S (urls_checked_count st)
               /\ log st ++ [Requested url] = log st ++ Requested url :: evs
               /\ (forall v, ~ In (Requested v) evs)
               /\ (added <> [] -> processed_urls st = url :: processed_urls st)
               /\ (added = [] -> processed_urls st = processed_urls st)).
  { intros D HD. exists [], []. rewrite app_nil_r.
    repeat split; try assumption; try reflexivity; try tauto. }
  destruct (http_get rt (urls_checked_count st) url) as [resp|];
    [|now apply (Hsame [])].
  set (D := parse_page_content_for_data rt resp).
  destruct (nonempty D) eqn:Hne.
  2:{ destruct D; [now apply (Hsame []) | discriminate]. }
  destruct (raised (merge D url (all_mcp_servers_list st))) eqn:Hr.
  { cbn [all_mcp_servers_list processed_urls log urls_checked_count].
    pose proof (merge_raised_unchanged D url _ Hr) as E.
    exists [], []. rewrite app_nil_r.
    repeat split; try assumption; try reflexivity; tauto. }
  destruct (merge_items_grows D url (all_mcp_servers_list st) 0) as [added [Hl Hn]].
  fold (merge D url (all_mcp_servers_list st)) in Hl, Hn.
  destruct (0 <? new_items_added (merge D url (all_mcp_servers_list st))) eqn:Hc;
    cbn [all_mcp_servers_list processed_urls log urls_checked_count].
  - apply Nat.ltb_lt in Hc. exists added. eexists.
    split; [exact Hl|]. split; [exact Hl|]. split; [reflexivity|].
    split; [rewrite <- app_assoc; reflexivity|]. split.
    + intros v [H | [H | [H | []]]]; try discriminate.
      destruct (write_output rt _ _); discriminate.
    + split; [reflexivity|]. intros ->. simpl in Hn. lia.
  - apply Nat.ltb_ge in Hc. exists added. eexists.
    split; [exact Hl|]. split; [exact Hl|]. split; [reflexivity|].
    split; [rewrite <- app_assoc; reflexivity|]. split.
    + intros v [H | []]. discriminate.
    + split; [|reflexivity]. intros Hadd. destruct added; [contradiction|].
      simpl in Hn. lia.
Qed.

Lemma run_loop_no_request (rt : Runtime) (urls : list text) (st : run_state) (u : text) :
  in_set u (processed_urls st) = true ->
  exists evs, log (run_loop rt urls st) = log st ++ evs /\ ~ In (Requested u) evs.
Proof.
  revert st. induction urls as [|url r IH]; intros st H.
  - exists []. split; [now rewrite app_nil_r | tauto].
  - change (run_loop rt (url :: r) st) with (run_loop rt r (process_url rt st url)).
    destruct (process_url_no_request rt st url u H) as [e1 [E1 N1]].
    destruct (IH (process_url rt st url) (process_url_keeps rt st url u H))
      as [e2 [E2 N2]].
    exists (e1 ++ e2). split.
    + now rewrite E2, E1, app_assoc.
    + intros Hin. apply in_app_or in Hin. tauto.
Qed.

Lemma load_processed_urls_spec (items : list json) (acc p : list text) :
  load_processed_urls items acc = Some p ->
  (forall u, In u acc -> In u p)
  /\ (forall e u, In (JDict e) items ->
        dict_get e (T "source_url") = Some (JStr u) -> In u p).
Proof.
  revert acc. induction items as [|item r IH]; intros acc H; simpl in H.
  - injection H as <-. split; [tauto | intros e u []].
  - assert (Hrest : forall acc', load_processed_urls r acc' = Some p ->
                       (forall u, In u acc -> In u acc') ->
                       (forall e u, JDict e = item ->
                          dict_get e (T "source_url") = Some (JStr u) -> In u acc') ->
                       (forall u, In u acc -> In u p)
                       /\ (forall e u, In (JDict e) (item :: r) ->
                             dict_get e (T "source_url") = Some (JStr u) -> In u p)).
    { intros acc' H' Hsub Hitem. destruct (IH acc' H') as [Ha Hi]. split.
      - intros u Hu. apply Ha. now apply Hsub.
      - intros e u [E | Hin] Hg.
        + apply Ha. now apply (Hitem e u).
        + now apply (Hi e u). }
    destruct item as [| | | | | |d];
      try (apply (Hrest acc H); [tauto | intros; discriminate]).
    destruct (dict_get d (T "source_url")) as [[]|] eqn:G; try discriminate;
      try (apply (Hrest acc H); [tauto | intros e u E; injection E as ->; congruence]).
    apply (Hrest (s :: acc) H).
    + intros u Hu. now right.
    + intros e u E Hg. injection E as ->. left. congruence.
Qed.

Lemma process_url_ignores (rt : Runtime) (g g' : nat -> text -> option (text * option text))
      (st : run_state) (url : text) :
  (in_set url (processed_urls st) = false ->
   g (urls_checked_count st) url = g' (urls_checked_count st) url) ->
  process_url (with_http_get rt g) st url = process_url (with_http_get rt g') st url.
Proof.
  intros H. unfold process_url. destruct (in_set url (processed_urls st)); [reflexivity|].
  cbn [http_get with_http_get]. now rewrite (H eq_refl).
Qed.

Lemma run_loop_ignores (rt : Runtime) (g g' : nat -> text -> option (text * option text))
      (urls : list text) (st : run_state) :
  (forall n v, in_set v (processed_urls st) = false -> g n v = g' n v) ->
  run_loop (with_http_get rt g) urls st = run_loop (with_http_get rt g') urls st.
Proof.
  revert st. induction urls as [|url r IH]; intros st H; [reflexivity|].
  change (run_loop (with_http_get rt g) r (process_url (with_http_get rt g) st url)
          = run_loop (with_http_get rt g') r (process_url (with_http_get rt g') st url)).
  rewrite <- (process_url_ignores rt g g' st url) by (intros Hn; now apply H).
  apply IH. intros n v Hv. apply H.
  destruct (in_set v (processed_urls st)) eqn:E; [|reflexivity].
  now rewrite (process_url_keeps _ st url v E) in Hv.
Qed.

(** C8.  A turn on a URL that is in the processed set issues no request
    and changes nothing.  A turn on a URL that is not in the set requests
    it once and merges what the cascade extracts from the response (nothing
    when the request fails) into the collection; the URL is added to the
    set exactly when that merge appended an entry.  Once a URL is in the
    set, whether it came from the loaded collection or was added earlier in
    the run, no request is issued for it, and what a request for it would
    answer has no effect on the run. *)
Theorem processed_urls_discipline (rt : Runtime) :
  (forall st url,
      in_set url (processed_urls st) = true ->
      process_url rt st url = logged st [Skipped url])
  /\ (forall st url,
         in_set url (processed_urls st) = false ->
         exists added evs,
           merged_list (merge (extracted rt (urls_checked_count st) url) url
                              (all_mcp_servers_list st))
           = all_mcp_servers_list st ++ added
           /\ all_mcp_servers_list (process_url rt st url)
              = all_mcp_servers_list st ++ added
           /\ urls_checked_count (process_url rt st url) = S (urls_checked_count st)
           /\ log (process_url rt st url) = log st ++ Requested url :: evs
           /\ (forall v, ~ In (Requested v) evs)
           /\ (added <> [] ->
               processed_urls (process_url rt st url) = url :: processed_urls st)
           /\ (added = [] ->
               processed_urls (process_url rt st url) = processed_urls st))
  /\ (forall urls1 urls2 st u,
         in_set u (processed_urls (run_loop rt urls1 st)) = true ->
         exists evs,
           log (run_loop rt (urls1 ++ urls2) st)
           = log (run_loop rt urls1 st) ++ evs
           /\ ~ In (Requested u) evs)
  /\ (forall urls loaded st e u,
         main_on rt urls loaded = Some st ->
         In (JDict e) loaded ->
         dict_get e (T "source_url") = Some (JStr u) ->
         ~ In (Requested u) (log st))
  /\ (forall g g' urls st,
         (forall n v, in_set v (processed_urls st) = false -> g n v = g' n v) ->
         run_loop (with_http_get rt g) urls st
         = run_loop (with_http_get rt g') urls st).
Proof.
  split; [apply process_url_skip|]. split; [apply process_url_fetch|]. split.
  - intros urls1 urls2 st u H. unfold run_loop at 1. rewrite fold_left_app.
    now apply run_loop_no_request.
  - split; [|apply run_loop_ignores].
    intros urls loaded st e u Hm Hin Hg. unfold main_on in Hm.
    destruct (load_processed_urls loaded []) as [p|] eqn:L; [|discriminate].
    injection Hm as <-.
    destruct (load_processed_urls_spec loaded [] p L) as [_ Hp].
    assert (Hu : in_set u p = true) by (apply in_set_In; now apply (Hp e u)).
    destruct (run_loop_no_request rt urls
                {| all_mcp_servers_list := loaded; processed_urls := p;
                   urls_checked_count := 0; log := [] |} u Hu) as [evs [E N]].
    rewrite E. exact N.
Qed.

Lemma processed_urls_discipline_witness :
  let u := T "https://example.com/servers.json" in
  let page := (Q "{'mcpServers': {'weather': {'command': 'python'}}}",
               Some (T "application/json")) in
  let other := (Q "{'mcpServers': {'files': {'command': 'node'}}}",
                Some (T "application/json")) in
  let g := fun (_ : nat) url => if text_eqb url u then Some page else None in
  let g' := fun (n : nat) url =>
              if text_eqb url u then match n with 0 => Some page | _ => Some other end
              else None in
  let rt := ascii_plain_pages g in
  let entry := JDict [(T "command", JStr (T "python")); (T "id", JStr (T "weather"));
                      (T "source_url", JStr u)] in
  let st0 := {| all_mcp_servers_list := []; processed_urls := [];
                urls_checked_count := 0; log := [] |} in
  let st1 := {| all_mcp_servers_list := [entry]; processed_urls := [u];
                urls_checked_count := 1;
                log := [Requested u; Merged u 1; Marked u; Wrote [entry]] |} in
  let loaded := [JDict [(T "id", JStr (T "weather")); (T "source_url", JStr u)]] in
  (in_set u (processed_urls st0) = false
   /\ process_url rt st0 u = st1
   /\ merge (extracted rt 0 u) u [] = {| merged_list := [entry]; new_items_added := 1;
                                         raised := false |}
   /\ exists added evs,
        merged_list (merge (extracted rt (urls_checked_count st0) u) u
                           (all_mcp_servers_list st0))
        = all_mcp_servers_list st0 ++ added
        /\ all_mcp_servers_list (process_url rt st0 u) = all_mcp_servers_list st0 ++ added
        /\ urls_checked_count (process_url rt st0 u) = S (urls_checked_count st0)
        /\ log (process_url rt st0 u) = log st0 ++ Requested u :: evs
        /\ (forall v, ~ In (Requested v) evs)
        /\ (added <> [] -> processed_urls (process_url rt st0 u) = u :: processed_urls st0)
        /\ (added = [] -> processed_urls (process_url rt st0 u) = processed_urls st0))
  /\ (in_set u (processed_urls st1) = true
      /\ process_url rt st1 u = logged st1 [Skipped u])
  /\ (in_set u (processed_urls (run_loop rt [u] st0)) = true
      /\ exists evs,
           log (run_loop rt ([u] ++ [u]) st0) = log (run_loop rt [u] st0) ++ evs
           /\ ~ In (Requested u) evs)
  /\ (main_on rt [u] loaded
      = Some {| all_mcp_servers_list := loaded; processed_urls := [u];
                urls_checked_count := 0; log := [Skipped u] |}
      /\ ~ In (Requested u) [Skipped u])
  /\ ((forall n v, in_set v (processed_urls st1) = false -> g n v = g' n v)
      /\ run_loop (with_http_get rt g) [u; u] st1
         = run_loop (with_http_get rt g') [u; u] st1).
Proof.
  intros u page other g g' rt entry st0 st1 loaded.
  pose proof (processed_urls_discipline rt) as [P1 [P2 [P3 [P4 P5]]]].
  assert (H0 : in_set u (processed_urls st0) = false) by reflexivity.
  assert (H1 : in_set u (processed_urls st1) = true) by (vm_compute; reflexivity).
  assert (H2 : in_set u (processed_urls (run_loop rt [u] st0)) = true)
    by (vm_compute; reflexivity).
  assert (H3 : main_on rt [u] loaded
               = Some {| all_mcp_servers_list := loaded; processed_urls := [u];
                         urls_checked_count := 0; log := [Skipped u] |})
    by (vm_compute; reflexivity).
  assert (H4 : forall n v, in_set v (processed_urls st1) = false -> g n v = g' n v).
  { intros n v Hv. unfold g, g'. destruct (text_eqb v u) eqn:E; [|reflexivity].
    apply text_eqb_eq in E. subst v. rewrite H1 in Hv. discriminate. }
  split.
  { split; [exact H0|]. split; [vm_compute; reflexivity|].
    split; [vm_compute; reflexivity|]. exact (P2 st0 u H0). }
  split; [split; [exact H1 | exact (P1 st1 u H1)]|].
  split; [split; [exact H2 | exact (P3 [u] [u] st0 u H2)]|].
  split.
  { split; [exact H3|].
    exact (P4 [u] loaded _ [(T "id", JStr (T "weather")); (T "source_url", JStr u)] u
              H3 (or_introl eq_refl) eq_refl). }
  split; [exact H4 | exact (P5 g g' [u; u] st1 H4)].
Defined.

(** ** Regular expressions *)

Lemma star_cls_sound (R : Type) (p : N -> bool) (g : bool)
      (k : text -> captures -> option R) (fuel : nat) (s : text) (caps : captures) (x : R) :
  star_iter (rx_match (Cls p)) g k fuel s caps = Some x ->
  exists run rest, s = run ++ rest /\ forallb p run = true /\ k rest caps = Some x.
Proof.
  revert s. induction fuel as [|fuel IH]; intros s H; simpl in H.
  - exists [], s. now repeat split.
  - assert (Hk : k s caps = Some x ->
                 exists run rest, s = run ++ rest /\ forallb p run = true
                                  /\ k rest caps = Some x)
      by (intros Hk; exists [], s; now repeat split).
    assert (Hi : match s with
                 | [] => None
                 | c :: s' =>
                     if p c
                     then if length s' <? length s
                          then star_iter (rx_match (Cls p)) g k fuel s' caps
                          else None
                     else None
                 end = Some x ->
                 exists run rest, s = run ++ rest /\ forallb p run = true
                                  /\ k rest caps = Some x).
    { destruct s as [|c s']; [discriminate|].
      destruct (p c) eqn:Hp; [|discriminate].
      destruct (length s' <? length (c :: s')); [|discriminate].
      intros Hy. destruct (IH s' Hy) as [run [rest [E [F K]]]].
      exists (c :: run), rest. simpl. rewrite Hp, F, E. now repeat split. }
    destruct g.
    + destruct (match s with [] => None | _ :: _ => _ end) as [y|] eqn:Ey.
      * injection H as ->. now apply Hi.
      * now apply Hk.
    + destruct (k s caps) as [y|] eqn:Ey.
      * injection H as ->. now apply Hk.
      * now apply Hi.
Qed.

Lemma star_greedy_here (R : Type) (body : text -> captures -> (text -> captures -> option R) -> option R)
      (k : text -> captures -> option R) (fuel : nat) (s : text) (caps : captures) :
  k s caps <> None -> star_iter body true k fuel s caps <> None.
Proof.
  intros Hk. destruct fuel; simpl; [exact Hk|].
  destruct (body s caps _); [discriminate | exact Hk].
Qed.

Lemma match_ws_then_sound (o : N) (s s' : text) (caps : captures) :
  match_here (re_ws_then o) s = Some (s', caps) -> In o s.
Proof.
  unfold match_here, re_ws_then. cbn [rx_match]. intros H.
  apply star_cls_sound in H. destruct H as [run [rest [E [_ K]]]].
  subst s. apply in_or_app. right.
  destruct rest as [|c r]; [discriminate|]. simpl in K.
  destruct (N.eqb_spec o c); [now left | discriminate].
Qed.

Lemma match_ws_then_here (o : N) (rest : text) :
  match_here (re_ws_then o) (o :: rest) <> None.
Proof.
  unfold match_here, re_ws_then. cbn [rx_match].
  apply star_greedy_here. simpl. now rewrite N.eqb_refl.
Qed.

Lemma search_ws_then_none (o : N) (s : text) (i : nat) :
  ~ In o s -> search_from (re_ws_then o) s i = None.
Proof.
  revert i. induction s as [|c s IH]; intros i Hn; simpl.
  - destruct (match_here (re_ws_then o) []) as [[s' caps]|] eqn:E; [|reflexivity].
    apply match_ws_then_sound in E. contradiction.
  - destruct (match_here (re_ws_then o) (c :: s)) as [[s' caps]|] eqn:E.
    + apply match_ws_then_sound in E. contradiction.
    + apply IH. intros Hin. apply Hn. now right.
Qed.

Lemma search_ws_then_some (o : N) (pre rest : text) (i : nat) :
  ~ In o pre ->
  exists mt, search_from (re_ws_then o) (pre ++ o :: rest) i = Some mt
             /\ i <= m_start mt <= i + length pre.
Proof.
  revert i. induction pre as [|c pre IH]; intros i Hn.
  - simpl. destruct (match_here (re_ws_then o) (o :: rest)) as [[s' caps]|] eqn:E.
    + eexists. split; [reflexivity|]. simpl. lia.
    + exfalso. now apply (match_ws_then_here o rest).
  - simpl. destruct (match_here (re_ws_then o) (c :: pre ++ o :: rest)) as [[s' caps]|].
    + eexists. split; [reflexivity|]. simpl. lia.
    + destruct (IH (S i)) as [mt [E B]].
      * intros Hin. apply Hn. now right.
      * exists mt. split; [exact E | lia].
Qed.

Lemma find_at_first (o : N) (pre rest : text) (j : nat) :
  ~ In o pre -> find_at [o] (pre ++ o :: rest) j = Some (j + length pre).
Proof.
  revert j. induction pre as [|c pre IH]; intros j Hn; simpl.
  - rewrite N.eqb_refl. simpl. f_equal. lia.
  - destruct (N.eqb_spec o c) as [->|Hne].
    + exfalso. apply Hn. now left.
    + simpl. rewrite IH by (intros Hin; apply Hn; now right). f_equal. lia.
Qed.

Lemma find_first (o : N) (pre rest : text) (j : nat) :
  ~ In o pre -> j <= length pre ->
  find [o] (pre ++ o :: rest) j = Some (length pre).
Proof.
  intros Hn Hj. unfold find.
  assert (Hl : (length (pre ++ o :: rest) <? j) = false)
    by (apply Nat.ltb_ge; rewrite length_app; simpl; lia).
  rewrite Hl, skipn_app.
  replace (j - length pre) with 0 by lia. simpl.
  rewrite find_at_first.
  - rewrite length_skipn. f_equal. lia.
  - intros Hin. apply Hn. rewrite <- (firstn_skipn j pre). apply in_or_app. now right.
Qed.

Lemma in_split_first (o : N) (l : text) :
  In o l -> exists pre rest, l = pre ++ o :: rest /\ ~ In o pre.
Proof.
  induction l as [|c l IH]; intros Hin; [contradiction|].
  destruct (N.eq_dec c o) as [->|Hne].
  - exists [], l. split; [reflexivity | tauto].
  - destruct Hin as [E | Hin]; [contradiction|].
    destruct (IH Hin) as [pre [rest [E Hn]]].
    exists (c :: pre), rest. split; [simpl; now f_equal|].
    intros [E' | Hin']; [contradiction | now apply Hn].
Qed.

(** ** Balanced-delimiter scanner *)

Lemma struct_open_idx_first (text_content : text) (start : nat) (o : N) (pre rest : text) :
  skipn start text_content = pre ++ o :: rest -> ~ In o pre ->
  struct_open_idx text_content start o = Some (start + length pre).
Proof.
  intros E Hn. unfold struct_open_idx, re_search. rewrite E.
  destruct (search_ws_then_some o pre rest 0 Hn) as [mt [Hs Hb]].
  rewrite Hs, find_first by (try assumption; lia). reflexivity.
Qed.

Lemma struct_open_idx_none (text_content : text) (start : nat) (o : N) :
  ~ In o (skipn start text_content) -> struct_open_idx text_content start o = None.
Proof.
  intros Hn. unfold struct_open_idx, re_search.
  now rewrite search_ws_then_none.
Qed.

Lemma struct_open_idx_inv (text_content : text) (start : nat) (o : N) (idx : nat) :
  struct_open_idx text_content start o = Some idx ->
  exists pre rest, skipn start text_content = pre ++ o :: rest
                   /\ ~ In o pre /\ idx = start + length pre
                   /\ skipn idx text_content = o :: rest.
Proof.
  intros H. destruct (in_dec N.eq_dec o (skipn start text_content)) as [Hin|Hn].
  - destruct (in_split_first o _ Hin) as [pre [rest [E Hp]]].
    rewrite (struct_open_idx_first _ _ _ pre rest E Hp) in H. injection H as <-.
    exists pre, rest. repeat split; try assumption.
    rewrite Nat.add_comm, <- skipn_skipn, E, skipn_app, Nat.sub_diag, skipn_all.
    reflexivity.
  - rewrite struct_open_idx_none in H by assumption. discriminate.
Qed.

Lemma balance_loop_exhausted (chars : text) (i : nat) (counter : Z) (o c : N) (final : Z) :
  (1 <= counter)%Z ->
  balance_loop chars i counter o c = Exhausted final -> (1 <= final)%Z.
Proof.
  revert i counter. induction chars as [|ch r IH]; intros i counter Hc H; simpl in H.
  - injection H as <-. exact Hc.
  - destruct (ch =? o)%N.
    + apply (IH (S i) (counter + 1)%Z); [lia | exact H].
    + destruct (ch =? c)%N; [|now apply (IH (S i) counter)].
      destruct (Z.eqb_spec (counter - 1) 0); [discriminate|].
      apply (IH (S i) (counter - 1)%Z); [lia | exact H].
Qed.

Lemma find_balanced_at_first (text_content : text) (start : nat) (o c : N) (pre rest : text) :
  skipn start text_content = pre ++ o :: rest -> ~ In o pre ->
  _find_balanced_structure text_content start o c
  = match balance_loop rest (S (start + length pre)) 1 o c with
    | Closed i => Some (slice text_content (start + length pre) (i + 1))
    | Exhausted _ => None
    end.
Proof.
  intros E Hn. unfold _find_balanced_structure.
  rewrite (struct_open_idx_first _ _ _ pre rest E Hn).
  rewrite (Nat.add_comm start), <- skipn_skipn, E, skipn_app, Nat.sub_diag, skipn_all.
  simpl. now rewrite N.eqb_refl.
Qed.

(** C7.  On the text [prefix { a { b } c } suffix], scanned from the end of
    [prefix] for braces, the scanner returns [{ a { b } c }].  For every
    text, start index and pair of delimiters it returns the not-found
    signal when no opening delimiter occurs at or after the start index,
    and when the counting loop reaches the end of the text, where the
    counter is then never zero; it returns the signal in no other case. *)
Theorem find_balanced_structure_scans :
  _find_balanced_structure (T "prefix { a { b } c } suffix") (length (T "prefix")) 123 125
  = Some (T "{ a { b } c }")
  /\ (forall text_content start o c,
         ~ In o (skipn start text_content) ->
         _find_balanced_structure text_content start o c = None)
  /\ (forall text_content start o c idx counter,
         struct_open_idx text_content start o = Some idx ->
         balance_loop (skipn idx text_content) idx 0 o c = Exhausted counter ->
         counter <> 0%Z
         /\ _find_balanced_structure text_content start o c = None)
  /\ (forall text_content start o c,
         _find_balanced_structure text_content start o c = None ->
         ~ In o (skipn start text_content)
         \/ exists idx counter,
              struct_open_idx text_content start o = Some idx
              /\ balance_loop (skipn idx text_content) idx 0 o c = Exhausted counter
              /\ (0 < counter)%Z).
Proof.
  split; [reflexivity|]. split; [|split].
  - intros text_content start o c Hn. unfold _find_balanced_structure.
    now rewrite struct_open_idx_none.
  - intros text_content start o c idx counter Hi Hb.
    split.
    + destruct (struct_open_idx_inv _ _ _ _ Hi) as [pre [rest [_ [_ [_ Es]]]]].
      rewrite Es in Hb. simpl in Hb. rewrite N.eqb_refl in Hb.
      apply balance_loop_exhausted in Hb; lia.
    + unfold _find_balanced_structure. now rewrite Hi, Hb.
  - intros text_content start o c H. unfold _find_balanced_structure in H.
    destruct (struct_open_idx text_content start o) as [idx|] eqn:Hi.
    + right. destruct (balance_loop (skipn idx text_content) idx 0 o c) as [i|counter] eqn:Hb;
        [discriminate|].
      exists idx, counter. split; [reflexivity|]. split; [exact Hb|].
      destruct (struct_open_idx_inv _ _ _ _ Hi) as [pre [rest [_ [_ [_ Es]]]]].
      rewrite Es in Hb. simpl in Hb. rewrite N.eqb_refl in Hb.
      apply balance_loop_exhausted in Hb; lia.
    + left. intros Hin. destruct (in_split_first o _ Hin) as [pre [rest [E Hp]]].
      rewrite (struct_open_idx_first _ _ _ pre rest E Hp) in Hi. discriminate.
Qed.

Lemma find_balanced_structure_scans_witness :
  ~ In 123%N (skipn 3 (T "a { b } c"))
  /\ _find_balanced_structure (T "a { b } c") 3 123 125 = None
  /\ struct_open_idx (T "x { a { b } c") 1 123 = Some 2
  /\ balance_loop (skipn 2 (T "x { a { b } c")) 2 0 123 125 = Exhausted 1
  /\ _find_balanced_structure (T "x { a { b } c") 1 123 125 = None.
Proof.
  assert (H1 : ~ In 123%N (skipn 3 (T "a { b } c"))).
  { simpl. intros H. repeat (destruct H as [H | H]; [discriminate|]). exact H. }
  assert (H2 : struct_open_idx (T "x { a { b } c") 1 123 = Some 2) by reflexivity.
  assert (H3 : balance_loop (skipn 2 (T "x { a { b } c")) 2 0 123 125 = Exhausted 1)
    by reflexivity.
  split; [exact H1|].
  split; [exact (proj1 (proj2 find_balanced_structure_scans) _ 3 123%N 125%N H1)|].
  split; [exact H2|]. split; [exact H3|].
  exact (proj2 (proj1 (proj2 (proj2 find_balanced_structure_scans))
                  _ 1 123%N 125%N 2 1%Z H2 H3)).
Defined.

(** C9.  The opening delimiter need not follow whitespace: whatever the
    characters [pre] between the start index and the first occurrence of
    the delimiter, the scanner opens at that occurrence and counts from
    there. *)
Theorem scanner_skips_any_characters (text_content : text) (start : nat) (o c : N)
        (pre rest : text) :
  skipn start text_content = pre ++ o :: rest -> ~ In o pre ->
  struct_open_idx text_content start o = Some (start + length pre)
  /\ _find_balanced_structure text_content start o c
     = match balance_loop rest (S (start + length pre)) 1 o c with
       | Closed i => Some (slice text_content (start + length pre) (i + 1))
       | Exhausted _ => None
       end.
Proof.
  intros E Hn. split.
  - now apply (struct_open_idx_first _ _ _ pre rest).
  - now apply find_balanced_at_first.
Qed.

Lemma scanner_skips_any_characters_witness :
  let t := T "cfg: see=below, then {x{y}} end" in
  skipn 4 t = T " see=below, then " ++ 123%N :: T "x{y}} end"
  /\ ~ In 123%N (T " see=below, then ")
  /\ struct_open_idx t 4 123 = Some 21
  /\ _find_balanced_structure t 4 123 125 = Some (T "{x{y}}").
Proof.
  intros t.
  assert (H1 : skipn 4 t = T " see=below, then " ++ 123%N :: T "x{y}} end") by reflexivity.
  assert (H2 : ~ In 123%N (T " see=below, then ")).
  { simpl. intros H. repeat (destruct H as [H | H]; [discriminate|]). exact H. }
  split; [exact H1|]. split; [exact H2|].
  destruct (scanner_skips_any_characters t 4 123%N 125%N _ _ H1 H2) as [Hi Hf].
  split; [exact Hi | exact Hf].
Defined.

(** ** Tolerant JSON parser *)

Lemma search_none_here (r : regex) (s : text) (i : nat) :
  search_from r s i = None ->
  match_here r s = None
  /\ match s with [] => True | _ :: s' => search_from r s' (S i) = None end.
Proof.
  destruct s as [|c s]; simpl; destruct (match_here r _) as [[s' caps]|];
    try discriminate; now split.
Qed.

Lemma sub_no_match (r : regex) (repl : captures -> text) (s : text) (i : nat) :
  search_from r s i = None -> sub_from r repl s 0 = s.
Proof.
  revert i. induction s as [|c s IH]; intros i H;
    destruct (search_none_here r _ i H) as [Hm Hs]; simpl; rewrite Hm.
  - reflexivity.
  - f_equal. now apply (IH (S i)).
Qed.

Lemma strip_comments_nothing_to_strip (t : text) :
  re_search re_line_comment t = None ->
  re_search re_block_comment t = None ->
  re_search re_ellipsis t = None ->
  re_search re_trailing_comma t = None ->
  strip_comments t = t.
Proof.
  unfold strip_comments, re_search, re_sub. intros H1 H2 H3 H4.
  rewrite (sub_no_match _ _ t 0 H1), (sub_no_match _ _ t 0 H2),
    (sub_no_match _ _ t 0 H3).
  now apply (sub_no_match _ _ t 0).
Qed.

(** C3 (as amended).  For every text the strict stage parses, the tolerant
    parser returns the value of the strict stage, which it tries first;
    and the comment-stripped stage parses the text to the same value
    whenever none of the four stripped patterns (line comment, block
    comment, ellipsis, trailing comma) occurs in it. *)
Theorem strict_parse_is_kept (rt : Runtime) (t : text) (v : json) :
  json_loads t = Some v ->
  _try_parse_json rt t = v
  /\ (re_search re_line_comment t = None ->
      re_search re_block_comment t = None ->
      re_search re_ellipsis t = None ->
      re_search re_trailing_comma t = None ->
      json_loads (strip_comments t) = Some v).
Proof.
  intros H. split.
  - unfold _try_parse_json. now rewrite H.
  - intros H1 H2 H3 H4. now rewrite strip_comments_nothing_to_strip.
Qed.

Lemma strict_parse_is_kept_witness :
  let t := Q "{'weather': {'command': 'python', 'args': ['weather.py', 1]}}" in
  let v := JDict [(T "weather",
                   JDict [(T "command", JStr (T "python"));
                          (T "args", JList [JStr (T "weather.py"); JInt 1])])] in
  json_loads t = Some v
  /\ _try_parse_json (ascii_plain_pages offline) t = v
  /\ json_loads (strip_comments t) = Some v.
Proof.
  intros t v.
  assert (H : json_loads t = Some v) by (vm_compute; reflexivity).
  split; [exact H|].
  destruct (strict_parse_is_kept (ascii_plain_pages offline) t v H) as [H1 H2].
  split; [exact H1|].
  apply H2; vm_compute; reflexivity.
Defined.

(** Strict JSON whose string literals hold [//] or [...]: after the
    stripping the first text no longer parses, the second parses to a
    different value. *)
Lemma stripping_breaks_strict_json :
  json_loads (Q "{'url': 'http://x'}") = Some (JDict [(T "url", JStr (T "http://x"))])
  /\ json_loads (strip_comments (Q "{'url': 'http://x'}")) = None
  /\ json_loads (Q "{'note': 'a...b'}") = Some (JDict [(T "note", JStr (T "a...b"))])
  /\ json_loads (strip_comments (Q "{'note': 'a...b'}"))
     = Some (JDict [(T "note", JStr (T "ab"))]).
Proof. repeat split; vm_compute; reflexivity. Qed.

(** ** Cascade *)

(** The end-to-end scenarios of the specification that need no markup. *)
Example scenario_direct_json :
  parse_page_content_for_data (ascii_plain_pages offline)
    (Q "{'mcpServers': {'weather': {'command': 'python', 'args': ['weather.py']}}}",
     Some (T "application/json"))
  = [(T "weather", JDict [(T "command", JStr (T "python"));
                          (T "args", JList [JStr (T "weather.py")])])].
Proof. vm_compute. reflexivity. Qed.

Example scenario_npx_phrase :
  parse_page_content_for_data (ascii_plain_pages offline)
    (T "npx -y @acme/tool mcp do-the-thing.", Some (T "text/plain"))
  = [(T "@acme/tool", synthesized (T "@acme/tool") (T "do-the-thing"))].
Proof. vm_compute. reflexivity. Qed.

Example scenario_key_in_free_text :
  parse_page_content_for_data (ascii_plain_pages offline)
    (T "config: " ++ Q "'mcpServers' : { ' a ': {'command': 'x', // why" ++ nl
       ++ Q " 'args': [1, 2,], ... } } and more", None)
  = [(T "a", JDict [(T "command", JStr (T "x"));
                    (T "args", JList [JInt 1; JInt 2])])].
Proof. vm_compute. reflexivity. Qed.

Example scenario_fenced_block :
  parse_page_content_for_data (ascii_plain_pages offline)
    (T "Install:" ++ nl ++ T "```json  " ++ nl
       ++ Q "{ 'mcpServers': { 'files ': { 'command': 'npx', 'args': ['-y', 'fs'] } } }"
       ++ nl ++ T "  ```" ++ nl ++ T "then npx -y other run", Some (T "text/markdown"))
  = [(T "files", JDict [(T "command", JStr (T "npx"));
                        (T "args", JList [JStr (T "-y"); JStr (T "fs")])])].
Proof. vm_compute. reflexivity. Qed.

(** A script element whose JSON is an empty mapping, or holds an empty
    mapping under the designated key, ends the cascade with an empty
    result: lines 153 and 159 return without the emptiness test of lines
    124 and 247. *)
Lemma empty_script_stops_cascade (rt : Runtime) (page ct s : text)
      (rest : list (option text)) (d : dict) :
  contains application_json (lower rt ct) = false ->
  soup_script_strings rt page = Some (Some s :: rest) ->
  nonempty s = true ->
  json_loads (strip s) = Some (JDict d) ->
  d = [] \/ designated_mapping d = Some [] ->
  parse_page_content_for_data rt (page, Some ct) = [].
Proof.
  intros Hct Hs Hn Hj Hd. unfold parse_page_content_for_data. simpl.
  unfold attempt_direct. rewrite Hct. simpl.
  unfold attempt_scripts. simpl. rewrite Hs. simpl. rewrite Hn, Hj.
  destruct Hd as [-> | Hd].
  - reflexivity.
  - rewrite Hd. reflexivity.
Qed.

Lemma empty_script_example (rt : Runtime) :
  let page := Q "<script type='application/json'>{}</script>" ++ nl
              ++ T "npx -y @acme/tool mcp do-the-thing." in
  soup_script_strings rt page = Some [Some (T "{}")] ->
  parse_page_content_for_data rt (page, Some (T "text/html")) = [].
Proof.
  intros page Hs.
  apply (empty_script_stops_cascade rt page (T "text/html") (T "{}") [] []);
    try reflexivity; [exact Hs | now left].
Qed.

(** C2 (the code at a failing input).  A page whose fenced block holds the
    empty mapping and whose text holds an npx phrase: the fenced-block
    strategy returns the empty set at once, the cascade returns it, and
    the npx strategy, had it been consulted, would have found a record. *)
Theorem empty_block_stops_cascade :
  let page := T "```json" ++ nl ++ T "{}" ++ nl ++ T "```" ++ nl
              ++ T "npx -y @acme/tool mcp do-the-thing." in
  let rt := ascii_plain_pages offline in
  attempt_code_blocks page [] = Return []
  /\ parse_page_content_for_data rt (page, Some (T "text/plain")) = []
  /\ attempt_npx rt (plain_text rt page (T "text/plain")) []
     = Return [(T "@acme/tool",
                JList [JStr (T "npx"); JStr (T "-y"); JStr (T "@acme/tool");
                       JStr (T "mcp"); JStr (T "do-the-thing")])].
Proof. repeat split; vm_compute; reflexivity. Qed.

Lemma starts_with_length (p s : text) : starts_with p s = true -> length p <= length s.
Proof.
  revert s. induction p as [|x p IH]; intros [|y s]; simpl; intros H; try lia;
    try discriminate.
  apply andb_true_iff in H. destruct H as [_ H]. apply IH in H. lia.
Qed.

Lemma find_at_bounds (needle s : text) (i k : nat) :
  find_at needle s i = Some k -> i <= k /\ (k - i) + length needle <= length s.
Proof.
  revert i. induction s as [|c s IH]; intros i H; simpl in H.
  - destruct (starts_with needle []) eqn:E; [|discriminate].
    injection H as <-. apply starts_with_length in E. simpl in *. lia.
  - destruct (starts_with needle (c :: s)) eqn:E.
    + injection H as <-. apply starts_with_length in E. simpl in *. lia.
    + apply IH in H. simpl. lia.
Qed.

Lemma find_bounds (needle s : text) (start k : nat) :
  find needle s start = Some k -> start <= k /\ k + length needle <= length s.
Proof.
  unfold find. destruct (length s <? start) eqn:E; [discriminate|].
  apply Nat.ltb_ge in E. intros H. apply find_at_bounds in H.
  rewrite length_skipn in H. lia.
Qed.

Lemma key_search_fuel (rt : Runtime) (fuel1 fuel2 : nat) (plain : text) (idx : nat) (d : dict) :
  length plain - idx < fuel1 -> length plain - idx < fuel2 ->
  key_search_loop rt fuel1 plain idx d = key_search_loop rt fuel2 plain idx d.
Proof.
  revert fuel2 idx d. induction fuel1 as [|f1 IH]; intros fuel2 idx d H1 H2; [lia|].
  destruct fuel2 as [|f2]; [lia|]. simpl.
  destruct (find mcp_servers_key_str plain idx) as [k|] eqn:F; [|reflexivity].
  apply find_bounds in F. change (length mcp_servers_key_str) with 12 in *.
  assert (Hn : forall d', key_search_loop rt f1 plain (k + 12) d'
                          = key_search_loop rt f2 plain (k + 12) d')
    by (intros d'; apply IH; lia).
  destruct (re_search re_ws_colon (skipn (k + 12) plain)); [|apply Hn].
  destruct (_find_balanced_structure plain _ 123 125); [|apply Hn].
  destruct (nonempty t); [|apply Hn].
  destruct (_try_parse_json rt t); try apply Hn.
  destruct (nonempty _); [reflexivity | apply Hn].
Qed.

(** The fuel [attempt_key_search] gives the loop is never used up: more
    fuel gives the same result. *)
Lemma attempt_key_search_total (rt : Runtime) (plain : text) (d : dict) (n : nat) :
  key_search_loop rt (S (length plain) + n) plain 0 d = attempt_key_search rt plain d.
Proof. unfold attempt_key_search. apply key_search_fuel; lia. Qed.

(** ** The npx strategy *)

Lemma lstrip_clean (s : text) :
  (forall c r, s = c :: r -> is_space c = false) -> lstrip s = s.
Proof.
  destruct s as [|c r]; intros H; [reflexivity|].
  simpl. now rewrite (H c r eq_refl).
Qed.

Lemma strip_idempotent (s : text) : strip (strip s) = strip s.
Proof.
  destruct (strip_clean_edges s) as [Hh Hl].
  unfold strip at 1. rewrite (lstrip_clean _ Hh). unfold rstrip.
  rewrite lstrip_clean, rev_involutive; [reflexivity|].
  intros c r E. apply (Hl c (rev r)).
  rewrite <- (rev_involutive (strip s)), E. reflexivity.
Qed.


Lemma npx_loop_step (m : rmatch) (rest : list rmatch) (d : dict) :
  npx_loop (m :: rest) d = npx_loop rest (dict_set d (key_of m) (record_of m)).
Proof.
  cbn [npx_loop]. unfold key_of, record_of, synthesized, cleaned. f_equal.
  cbn [trim_data_recursively map]. now rewrite !strip_idempotent.
Qed.

Lemma npx_loop_get (matches : list rmatch) (d : dict) (k : text) :
  dict_get (npx_loop matches d) k = dict_get d k
  \/ exists m, In m matches /\ key_of m = k
               /\ dict_get (npx_loop matches d) k = Some (record_of m).
Proof.
  revert d. induction matches as [|m rest IH]; intros d; [now left|].
  rewrite npx_loop_step.
  destruct (IH (dict_set d (key_of m) (record_of m))) as [E | [m' [Hin [Hk Hg]]]].
  - destruct (text_eqb (key_of m) k) eqn:Ek.
    + apply text_eqb_eq in Ek. right. exists m. split; [now left|]. split; [exact Ek|].
      rewrite E, <- Ek. apply dict_get_set_same.
    + apply text_eqb_neq in Ek. left. rewrite E. now apply dict_get_set_other.
  - right. exists m'. split; [now right|]. now split.
Qed.

Lemma npx_loop_has (matches : list rmatch) (d : dict) (m : rmatch) :
  In m matches ->
  exists m', In m' matches /\ key_of m' = key_of m
             /\ dict_get (npx_loop matches d) (key_of m) = Some (record_of m').
Proof.
  revert d. induction matches as [|a rest IH]; intros d Hin; [contradiction|].
  rewrite npx_loop_step. destruct Hin as [-> | Hin].
  - destruct (npx_loop_get rest (dict_set d (key_of m) (record_of m)) (key_of m))
      as [E | [m' [Hin' [Hk Hg]]]].
    + exists m. split; [now left|]. split; [reflexivity|].
      rewrite E. apply dict_get_set_same.
    + exists m'. split; [now right|]. now split.
  - destruct (IH (dict_set d (key_of a) (record_of a)) Hin) as [m' [Hin' [Hk Hg]]].
    exists m'. split; [now right|]. now split.
Qed.

(** ** The npx pattern on an invocation phrase *)

Lemma lit_take (R : Type) (l s : text) (caps : captures)
      (k : text -> captures -> option R) :
  rx_match (Lit l) (l ++ s) caps k = k s caps.
Proof.
  induction l as [|c l IH]; [reflexivity|].
  cbn. rewrite N.eqb_refl. exact IH.
Qed.

Lemma lit_fail (R : Type) (l s : text) (caps : captures)
      (k : text -> captures -> option R) :
  starts_with l s = false -> rx_match (Lit l) s caps k = None.
Proof.
  revert s. induction l as [|c l IH]; intros s H; [discriminate|].
  destruct s as [|y s]; [reflexivity|]. cbn. simpl in H.
  destruct (N.eqb c y); [now apply IH | reflexivity].
Qed.

Lemma star_take (R : Type) (p : N -> bool) (k : text -> captures -> option R)
      (run rest : text) (caps : captures) (fuel : nat) (x : R) :
  forallb p run = true -> stops p rest -> length run <= fuel ->
  k rest caps = Some x ->
  star_iter (rx_match (Cls p)) true k fuel (run ++ rest) caps = Some x.
Proof.
  revert fuel. induction run as [|c run IH]; intros fuel Hr Hs Hf Hk.
  - destruct fuel; simpl; [exact Hk|].
    destruct rest as [|c r]; [exact Hk|]. simpl in Hs. now rewrite Hs.
  - destruct fuel as [|fuel]; [simpl in Hf; lia|].
    simpl in Hr. apply andb_true_iff in Hr. destruct Hr as [Hc Hr].
    change ((c :: run) ++ rest) with (c :: run ++ rest).
    cbn [star_iter rx_match]. rewrite Hc.
    assert (Hlt : (length (run ++ rest) <? length (c :: run ++ rest)) = true)
      by (apply Nat.ltb_lt; simpl; lia).
    rewrite Hlt, IH; try assumption; [reflexivity | simpl in Hf; lia].
Qed.

Lemma takes_lit (l rest : text) (caps : captures) : takes (Lit l) l rest caps caps.
Proof. intros R k x Hk. now rewrite lit_take. Qed.

Lemma takes_plus (p : N -> bool) (run rest : text) (caps : captures) :
  run <> [] -> forallb p run = true -> stops p rest ->
  takes (Plus true (Cls p)) run rest caps caps.
Proof.
  intros Hne Hr Hs R k x Hk. destruct run as [|c run]; [contradiction|].
  simpl in Hr. apply andb_true_iff in Hr. destruct Hr as [Hc Hr].
  change ((c :: run) ++ rest) with (c :: run ++ rest).
  unfold Plus. cbn [rx_match]. rewrite Hc. apply star_take; try assumption.
  rewrite length_app. lia.
Qed.

Lemma takes_seq (r1 r2 : regex) (run1 run2 rest : text) (caps caps1 caps2 : captures) :
  takes r1 run1 (run2 ++ rest) caps caps1 ->
  takes r2 run2 rest caps1 caps2 ->
  takes (Seq r1 r2) (run1 ++ run2) rest caps caps2.
Proof.
  intros H1 H2 R k x Hk. rewrite <- app_assoc. cbn [rx_match].
  apply H1. now apply H2.
Qed.

Lemma takes_opt (r : regex) (run rest : text) (caps caps' : captures) :
  takes r run rest caps caps' -> takes (Opt r) run rest caps caps'.
Proof. intros H R k x Hk. unfold Opt. cbn [rx_match]. now rewrite (H R k x Hk). Qed.

Lemma takes_opt_skip (r : regex) (rest : text) (caps : captures) :
  (forall (R : Type) (k : text -> captures -> option R), rx_match r rest caps k = None) ->
  takes (Opt r) [] rest caps caps.
Proof. intros H R k x Hk. unfold Opt. cbn [rx_match app]. now rewrite H. Qed.

Lemma firstn_consumed (run rest : text) :
  firstn (length (run ++ rest) - length rest) (run ++ rest) = run.
Proof.
  rewrite length_app, Nat.add_sub, firstn_app, Nat.sub_diag, firstn_all. simpl.
  apply app_nil_r.
Qed.

Lemma takes_group (n : nat) (r : regex) (run rest : text) (caps : captures) :
  takes r run rest caps caps -> takes (Group n r) run rest caps (set_cap n run caps).
Proof.
  intros H R k x Hk. cbn [rx_match]. apply H. now rewrite firstn_consumed.
Qed.

Lemma takes_package (rt : Runtime) (name : text) (scoped : option text)
      (rest : text) (caps : captures) :
  name <> [] -> forallb (package_char rt) name = true ->
  match scoped with
  | Some second => second <> [] /\ forallb (package_char rt) second = true
  | None => True
  end ->
  takes (Group 1 (Seq (Plus true (Cls (package_char rt)))
                    (Opt (Seq (Chr 47) (Plus true (Cls (package_char rt)))))))
        (package_name name scoped) (32%N :: rest) caps
        (set_cap 1 (package_name name scoped) caps).
Proof.
  intros Hn Hp Hs. apply takes_group. destruct scoped as [second|]; simpl.
  - destruct Hs as [Hsn Hsp]. apply (takes_seq _ _ name (47%N :: second) _ caps caps caps).
    + apply takes_plus; [assumption | assumption | reflexivity].
    + apply takes_opt. apply (takes_seq (Chr 47) _ [47%N] second _ caps caps caps).
      * intros R k x Hk. unfold Chr. cbn [rx_match app]. now rewrite N.eqb_refl.
      * apply takes_plus; [assumption | assumption | reflexivity].
  - rewrite <- (app_nil_r name). apply (takes_seq _ _ name [] _ caps caps caps).
    + apply takes_plus; [assumption | assumption | reflexivity].
    + apply takes_opt_skip. intros R k. reflexivity.
Qed.

Lemma takes_phrase (rt : Runtime) (name : text) (scoped : option text)
      (with_mcp : bool) (fragment : text) :
  name <> [] -> forallb (package_char rt) name = true ->
  match scoped with
  | Some second => second <> [] /\ forallb (package_char rt) second = true
  | None => True
  end ->
  stops is_space name ->
  fragment <> [] -> forallb (none_of [10; 13; 60]%N) fragment = true ->
  stops is_space fragment ->
  (with_mcp = false -> starts_with (T "mcp") fragment = false) ->
  takes (npx_command_pattern rt)
        (phrase (package_name name scoped) with_mcp fragment) [] []
        [(1, package_name name scoped); (2, fragment)].
Proof.
  intros Hn Hp Hs Hns Hf Hfc Hfs Hm.
  set (pkg := package_name name scoped).
  set (mcp := if with_mcp then T "mcp " else []).
  assert (Hps : stops is_space (pkg ++ [32%N] ++ mcp ++ fragment)).
  { unfold pkg. destruct name as [|c name]; [contradiction|].
    destruct scoped; exact Hns. }
  assert (Hms : stops is_space (mcp ++ fragment)).
  { unfold mcp. destruct with_mcp; [reflexivity|]. simpl app.
    destruct fragment as [|c f]; [contradiction | exact Hfs]. }
  replace (phrase pkg with_mcp fragment)
    with (T "npx" ++ [32%N] ++ T "-y" ++ [32%N] ++ pkg ++ [32%N]
            ++ mcp ++ fragment).
  2:{ unfold phrase, mcp. destruct with_mcp; reflexivity. }
  unfold npx_command_pattern.
  apply (takes_seq _ _ _ _ _ [] [] _); [apply takes_lit|].
  apply (takes_seq _ _ _ _ _ [] [] _);
    [apply takes_plus; [discriminate | reflexivity | reflexivity]|].
  apply (takes_seq _ _ _ _ _ [] [] _); [apply takes_lit|].
  apply (takes_seq _ _ _ _ _ [] [] _);
    [apply takes_plus; [discriminate | reflexivity | rewrite app_nil_r; exact Hps]|].
  apply (takes_seq _ _ _ _ _ [] [(1, pkg)] _).
  { apply (takes_package rt name scoped _ []); assumption. }
  apply (takes_seq _ _ _ _ _ [(1, pkg)] [(1, pkg)] _).
  { apply takes_plus; [discriminate | reflexivity | rewrite app_nil_r; exact Hms]. }
  apply (takes_seq _ _ mcp fragment [] [(1, pkg)] [(1, pkg)] _).
  - unfold mcp. destruct with_mcp.
    + apply takes_opt.
      apply (takes_seq _ _ (T "mcp") [32%N] _ [(1, pkg)] [(1, pkg)] _);
        [apply takes_lit|].
      apply takes_plus; [discriminate | reflexivity |].
      rewrite app_nil_r. destruct fragment as [|c f]; [contradiction | exact Hfs].
    + apply takes_opt_skip. intros R k. cbn [rx_match]. rewrite app_nil_r.
      apply lit_fail. now apply Hm.
  - apply (takes_group 2 _ fragment [] [(1, pkg)]).
    apply takes_plus; [assumption | assumption | exact I].
Qed.

Lemma finditer_skip_all (r : regex) (s : text) (i : nat) :
  match_here r [] = None -> finditer_from r s i (length s) = [].
Proof.
  intros H. revert i. induction s as [|c s IH]; intros i; simpl.
  - now rewrite H.
  - apply IH.
Qed.

Lemma finditer_whole (r : regex) (s : text) (caps : captures) :
  match_here r s = Some ([], caps) -> match_here r [] = None ->
  re_finditer r s = [{| m_start := 0; m_end := length s; m_groups := caps |}].
Proof.
  intros H H0. unfold re_finditer. destruct s as [|c s]; [congruence|].
  cbn [finditer_from]. rewrite H. cbn [length Nat.sub Nat.add].
  rewrite Nat.sub_0_r, finditer_skip_all by assumption. reflexivity.
Qed.

Lemma attempt_npx_phrase (rt : Runtime) (name : text) (scoped : option text)
      (with_mcp : bool) (fragment : text) :
  name <> [] -> forallb (package_char rt) name = true ->
  match scoped with
  | Some second => second <> [] /\ forallb (package_char rt) second = true
  | None => True
  end ->
  stops is_space name ->
  fragment <> [] -> forallb (none_of [10; 13; 60]%N) fragment = true ->
  stops is_space fragment ->
  (with_mcp = false -> starts_with (T "mcp") fragment = false) ->
  attempt_npx rt (phrase (package_name name scoped) with_mcp fragment) []
  = Return [(strip (package_name name scoped),
             synthesized (strip (package_name name scoped)) (cleaned fragment))].
Proof.
  intros Hn Hp Hs Hns Hf Hfc Hfs Hm.
  pose proof (takes_phrase rt name scoped with_mcp fragment Hn Hp Hs Hns Hf Hfc Hfs Hm)
    as Ht.
  specialize (Ht _ (fun s' caps => Some (s', caps)) _ eq_refl).
  rewrite app_nil_r in Ht. unfold attempt_npx.
  rewrite (finditer_whole _ _ _ Ht eq_refl).
  rewrite npx_loop_step. reflexivity.
Qed.

(** C10.  Every record of the npx strategy is the five-element list
    [npx, -y, package, mcp, fragment] of one of the matches, with the
    fragment stripped of its trailing punctuation; every match gives its
    package such a record (of the last match for that package); and on
    every phrase [npx -y package fragment], with or without [mcp] between
    the package and the fragment, the strategy returns that list for the
    package. *)
Theorem npx_records_insert_mcp (rt : Runtime) :
  (forall plain k v,
      dict_get (result (attempt_npx rt plain [])) k = Some v ->
      exists m, In m (re_finditer (npx_command_pattern rt) plain)
                /\ key_of m = k /\ v = record_of m)
  /\ (forall plain m,
         In m (re_finditer (npx_command_pattern rt) plain) ->
         exists m', In m' (re_finditer (npx_command_pattern rt) plain)
                    /\ key_of m' = key_of m
                    /\ dict_get (result (attempt_npx rt plain [])) (key_of m)
                       = Some (record_of m'))
  /\ (forall name scoped with_mcp fragment,
         name <> [] -> forallb (package_char rt) name = true ->
         match scoped with
         | Some second => second <> [] /\ forallb (package_char rt) second = true
         | None => True
         end ->
         stops is_space name ->
         fragment <> [] -> forallb (none_of [10; 13; 60]%N) fragment = true ->
         stops is_space fragment ->
         (with_mcp = false -> starts_with (T "mcp") fragment = false) ->
         attempt_npx rt (phrase (package_name name scoped) with_mcp fragment) []
         = Return [(strip (package_name name scoped),
                    synthesized (strip (package_name name scoped))
                                (cleaned fragment))]).
Proof.
  assert (Hres : forall plain,
             result (attempt_npx rt plain [])
             = npx_loop (re_finditer (npx_command_pattern rt) plain) []).
  { intros plain. unfold attempt_npx. now destruct (nonempty _). }
  split; [|split].
  - intros plain k v H. rewrite Hres in H.
    destruct (npx_loop_get (re_finditer (npx_command_pattern rt) plain) [] k)
      as [E | [m [Hin [Hk Hg]]]].
    + rewrite E in H. discriminate.
    + exists m. split; [assumption|]. split; [assumption | congruence].
  - intros plain m Hin. rewrite Hres. now apply npx_loop_has.
  - apply attempt_npx_phrase.
Qed.

Lemma npx_records_insert_mcp_witness :
  let rt := ascii_plain_pages offline in
  let record := JList [JStr (T "npx"); JStr (T "-y"); JStr (T "@acme/tool");
                       JStr (T "mcp"); JStr (T "do-the-thing")] in
  attempt_npx rt (T "npx -y @acme/tool mcp do-the-thing.") []
  = Return [(T "@acme/tool", record)]
  /\ attempt_npx rt (T "npx -y @acme/tool do-the-thing.") []
     = Return [(T "@acme/tool", record)]
  /\ dict_get (result (attempt_npx rt (T "see npx -y @acme/tool do-the-thing.") []))
       (T "@acme/tool") = Some record.
Proof.
  intros rt record.
  assert (H : forall with_mcp,
             attempt_npx rt (phrase (package_name (T "@acme") (Some (T "tool")))
                               with_mcp (T "do-the-thing.")) []
             = Return [(T "@acme/tool", record)]).
  { intros with_mcp.
    rewrite (proj2 (proj2 (npx_records_insert_mcp rt))
               (T "@acme") (Some (T "tool")) with_mcp (T "do-the-thing."));
      try reflexivity; try discriminate.
    split; [discriminate | reflexivity]. }
  split; [exact (H true)|]. split; [exact (H false)|].
  assert (Hin : In {| m_start := 4; m_end := 35;
                      m_groups := [(1, T "@acme/tool"); (2, T "do-the-thing.")] |}
                   (re_finditer (npx_command_pattern rt)
                      (T "see npx -y @acme/tool do-the-thing."))) by (now left).
  destruct (proj1 (proj2 (npx_records_insert_mcp rt)) _ _ Hin) as [m' [Hm' [Hk Hg]]].
  destruct Hm' as [<- | []]. exact Hg.
Defined.

(** ** The npx records and the accumulator *)

Lemma npx_loop_lists (matches : list rmatch) (d : dict) :
  Forall list_body d -> Forall list_body (npx_loop matches d).
Proof.
  revert d. induction matches as [|m r IH]; intros d H; [exact H|].
  rewrite npx_loop_step. apply IH. apply dict_set_Forall; [exact H | exact I].
Qed.

Lemma merge_items_lists (items : dict) (url : text) (C : list json) (n : nat) :
  Forall list_body items ->
  merge_items items url C n
  = {| merged_list := C; new_items_added := n; raised := false |}.
Proof.
  induction 1 as [|[k v] r Hv _ IH]; [reflexivity|].
  unfold list_body in Hv. cbn [snd] in Hv.
  destruct v; try contradiction. exact IH.
Qed.

(** C1.  The claim promises an entry for every non-duplicate pair of the
    extracted set, whatever the shape of its body, and the comments of
    [main] count the npx commands among the entries to store.  The code
    does not store them: every record of the npx strategy is a list, the
    accumulator passes over a body that is not a mapping, and so the merge
    of what the npx strategy extracts appends nothing, to any collection
    and for any text.  On a page with the phrase
    [npx -y @acme/tool mcp do-the-thing.] the cascade extracts the record,
    and the run stores nothing, writes nothing and leaves the URL
    unprocessed. *)
Theorem npx_records_are_not_stored :
  (forall rt plain url C,
      merge (result (attempt_npx rt plain [])) url C
      = {| merged_list := C; new_items_added := 0; raised := false |})
  /\ (let u := T "https://example.com/readme" in
      let page := (T "npx -y @acme/tool mcp do-the-thing.", None) in
      let rt := ascii_plain_pages (fun _ _ => Some page) in
      parse_page_content_for_data rt page
      = [(T "@acme/tool",
          JList [JStr (T "npx"); JStr (T "-y"); JStr (T "@acme/tool");
                 JStr (T "mcp"); JStr (T "do-the-thing")])]
      /\ main_on rt [u] []
         = Some {| all_mcp_servers_list := []; processed_urls := [];
                   urls_checked_count := 1;
                   log := [Requested u; Merged u 0] |}).
Proof.
  split.
  - intros rt plain url C. unfold merge. apply merge_items_lists.
    unfold attempt_npx. cbv zeta.
    assert (H : Forall list_body (npx_loop (re_finditer (npx_command_pattern rt) plain) []))
      by (apply npx_loop_lists; constructor).
    now destruct (nonempty (re_finditer (npx_command_pattern rt) plain)).
  - cbv zeta. split; vm_compute; reflexivity.
Qed.

(** * Further properties *)

(** ** More on the recursive trimmer *)

Lemma edge_clean_spec (s : text) : edge_clean s = true <-> clean_edges s.
Proof.
  unfold edge_clean, clean_edges. rewrite andb_true_iff. split.
  - intros [Hh Hl]. split.
    + intros c r ->. now apply negb_true_iff in Hh.
    + intros c r ->. rewrite rev_app_distr in Hl. simpl in Hl.
      now apply negb_true_iff in Hl.
  - intros [Hh Hl]. split.
    + destruct s as [|c r]; [reflexivity|]. apply negb_true_iff. now apply (Hh c r).
    + destruct (rev s) as [|c r] eqn:E; [reflexivity|].
      apply negb_true_iff. apply (Hl c (rev r)).
      rewrite <- (rev_involutive s), E. reflexivity.
Qed.

Lemma strip_clean (s : text) : edge_clean s = true -> strip s = s.
Proof.
  intros H. apply edge_clean_spec in H. destruct H as [Hh Hl].
  unfold strip. rewrite (lstrip_clean _ Hh). unfold rstrip.
  rewrite lstrip_clean, rev_involutive; [reflexivity|].
  intros c r E. apply (Hl c (rev r)).
  rewrite <- (rev_involutive s), E. reflexivity.
Qed.

Lemma dict_set_keys_NoDup (d : dict) (k : text) (v : json) :
  NoDup (keys d) -> NoDup (keys (dict_set d k v)).
Proof.
  induction d as [|[k' v'] r IH]; simpl; intros H.
  - constructor; [tauto | constructor].
  - inversion H as [|? ? Hk Hr]; subst. destruct (text_eqb k' k) eqn:E; simpl.
    + now constructor.
    + constructor; [|now apply IH].
      intros Hin. apply Hk. clear IH Hr H Hk.
      induction r as [|[k0 v0] r IHr]; simpl in *.
      * destruct Hin as [-> | []]. apply text_eqb_neq in E. contradiction.
      * destruct (text_eqb k0 k); simpl in Hin; destruct Hin as [-> | Hin];
          auto.
Qed.

Lemma dict_set_nonempty (d : dict) (k : text) (v : json) : dict_set d k v <> [].
Proof. destruct d as [|[k' v'] r]; simpl; [|destruct (text_eqb k' k)]; discriminate. Qed.

Lemma trim_items_keeps (Q : text * json -> Prop) (d acc : dict) :
  NoDup (keys acc) -> Forall Q acc ->
  Forall (fun kv => Q (strip (fst kv), trim_data_recursively (snd kv))) d ->
  NoDup (keys (trim_items d acc)) /\ Forall Q (trim_items d acc).
Proof.
  revert acc. induction d as [|[k v] r IH]; intros acc Hn Ha Hd; [now split|].
  inversion Hd as [|? ? H1 Hr]; subst. simpl. apply IH.
  - now apply dict_set_keys_NoDup.
  - now apply dict_set_Forall.
  - assumption.
Qed.

Lemma trim_items_nonempty (d acc : dict) :
  d <> [] \/ acc <> [] -> trim_items d acc <> [].
Proof.
  revert acc. induction d as [|[k v] r IH]; intros acc H; simpl.
  - destruct H; [contradiction | assumption].
  - apply IH. right. apply dict_set_nonempty.
Qed.

Lemma trim_well_trimmed (x : json) : well_trimmed (trim_data_recursively x) = true.
Proof.
  induction x as [| b | z | l | s | l IH | d IH] using json_rect'; try reflexivity.
  - simpl. apply edge_clean_spec, strip_clean_edges.
  - simpl. rewrite forallb_forall. intros y Hy. apply in_map_iff in Hy.
    destruct Hy as [x [<- Hx]]. rewrite Forall_forall in IH. now apply IH.
  - rewrite trim_dict_eq.
    destruct (trim_items_keeps
                (fun kv => edge_clean (fst kv) && well_trimmed (snd kv) = true)
                d []) as [Hn Hf].
    + constructor.
    + constructor.
    + rewrite Forall_forall in *. intros kv Hkv. simpl.
      rewrite (IH kv Hkv), andb_true_r. apply edge_clean_spec, strip_clean_edges.
    + simpl. apply andb_true_iff. split.
      * now apply distinct_NoDup.
      * rewrite forallb_forall. rewrite Forall_forall in Hf. exact Hf.
Qed.

Lemma trim_fixed (y : json) : well_trimmed y = true -> trim_data_recursively y = y.
Proof.
  induction y as [| b | z | l | s | l IH | d IH] using json_rect'; intros H;
    try reflexivity.
  - simpl in *. f_equal. now apply strip_clean.
  - simpl in *. f_equal. induction l as [|y r IHr]; [reflexivity|].
    simpl in H. apply andb_true_iff in H. destruct H as [Hy Hr].
    inversion IH as [|? ? Py Pr]; subst. simpl. f_equal; [now apply Py | now apply IHr].
  - rewrite trim_dict_eq. simpl in H. apply andb_true_iff in H. destruct H as [Hd Hv].
    assert (Hk : map (fun kv => strip (fst kv)) d = map fst d).
    { apply map_ext_in. intros kv Hkv. rewrite forallb_forall in Hv.
      specialize (Hv kv Hkv). apply andb_true_iff in Hv. now apply strip_clean. }
    rewrite trim_items_apart.
    + simpl. f_equal. rewrite <- (map_id d) at 2. apply map_ext_in.
      intros [k v] Hkv. rewrite forallb_forall in Hv. specialize (Hv _ Hkv).
      apply andb_true_iff in Hv. destruct Hv as [Hc Hw].
      rewrite Forall_forall in IH. pose proof (IH _ Hkv Hw) as Ht.
      simpl in Hc, Ht |- *. rewrite Ht, strip_clean by assumption.
      reflexivity.
    + simpl. rewrite Hk. now apply distinct_NoDup.
Qed.

(** X1.  Trimming twice is trimming once, and the values the trimmer
    leaves unchanged are exactly those in which every string has clean
    edges and every mapping distinct keys. *)
Theorem trim_data_recursively_idempotent (x : json) :
  trim_data_recursively (trim_data_recursively x) = trim_data_recursively x
  /\ (trim_data_recursively x = x <-> well_trimmed x = true).
Proof.
  split.
  - apply trim_fixed, trim_well_trimmed.
  - split; [|apply trim_fixed]. intros E. rewrite <- E. apply trim_well_trimmed.
Qed.

(** X2.  In the output of the trimmer no string, key or value at any
    depth, has whitespace at either end and every mapping has distinct
    keys; a mapping is trimmed to a mapping that is empty exactly when the
    input is. *)
Theorem trim_data_recursively_output_clean :
  (forall x, well_trimmed (trim_data_recursively x) = true)
  /\ (forall d, exists d',
         trim_data_recursively (JDict d) = JDict d'
         /\ NoDup (keys d') /\ (d' = [] <-> d = [])).
Proof.
  split; [apply trim_well_trimmed|].
  intros d. exists (trim_items d []). split; [apply trim_dict_eq|]. split.
  - pose proof (trim_well_trimmed (JDict d)) as H. rewrite trim_dict_eq in H.
    simpl in H. apply andb_true_iff in H. now apply distinct_NoDup.
  - split.
    + intros E. destruct d as [|kv r]; [reflexivity|]. exfalso.
      apply (trim_items_nonempty (kv :: r) []); [left; discriminate | exact E].
    + now intros ->.
Qed.

Lemma trim_items_get (d acc : dict) (k : text) :
  dict_get (trim_items d acc) k
  = match last_stripped d k with
    | Some v => Some (trim_data_recursively v)
    | None => dict_get acc k
    end.
Proof.
  revert acc. induction d as [|[k0 v] r IH]; intros acc; [reflexivity|].
  simpl. rewrite IH. destruct (last_stripped r k); [reflexivity|].
  destruct (text_eqb (strip k0) k) eqn:E.
  - apply text_eqb_eq in E. subst. apply dict_get_set_same.
  - apply text_eqb_neq in E. now apply dict_get_set_other.
Qed.

(** X3.  Looking a key up in a trimmed mapping gives the trimmed value of
    the last entry of the input whose key strips to it, and nothing when
    no key does: of keys that collide the last one wins. *)
Theorem trim_data_recursively_lookup (d : dict) :
  exists d', trim_data_recursively (JDict d) = JDict d'
             /\ forall k, dict_get d' k
                          = option_map trim_data_recursively (last_stripped d k).
Proof.
  exists (trim_items d []). split; [apply trim_dict_eq|].
  intros k. rewrite trim_items_get. now destruct (last_stripped d k).
Qed.

Lemma trim_data_recursively_idempotent_witness :
  let x := JDict [(T "weather", JList [JStr (T "a b"); JNull])] in
  well_trimmed x = true /\ trim_data_recursively x = x.
Proof.
  intros x. assert (H : well_trimmed x = true) by reflexivity.
  split; [exact H|]. exact (proj2 (proj2 (trim_data_recursively_idempotent x)) H).
Defined.

(** ** More on the balanced-delimiter scanner *)

Lemma depth_app (a b : text) (o c : N) :
  depth (a ++ b) o c = (depth a o c + depth b o c)%Z.
Proof. induction a as [|ch a IH]; simpl; [reflexivity | rewrite IH; lia]. Qed.

Lemma depth_open (r : text) (o c : N) : depth (o :: r) o c = (1 + depth r o c)%Z.
Proof. cbn [depth]. now rewrite N.eqb_refl. Qed.

Lemma depth_close (o c : N) : o <> c -> depth [c] o c = (-1)%Z.
Proof.
  intros H. cbn [depth]. destruct (N.eqb_spec c o) as [->|_]; [contradiction|].
  now rewrite N.eqb_refl.
Qed.

Lemma balance_loop_closed (chars : text) (i : nat) (counter : Z) (o c : N) (j : nat) :
  (1 <= counter)%Z ->
  balance_loop chars i counter o c = Closed j ->
  exists body rest,
    chars = body ++ c :: rest /\ j = i + length body /\ o <> c
    /\ (counter + depth body o c = 1)%Z
    /\ forall m, m <= length body -> (1 <= counter + depth (firstn m body) o c)%Z.
Proof.
  revert i counter. induction chars as [|ch r IH]; intros i counter Hc H; simpl in H;
    [discriminate|].
  assert (Hstep : forall counter',
             (1 <= counter')%Z ->
             (counter' = counter
                        + (if (ch =? o)%N then 1 else if (ch =? c)%N then -1 else 0))%Z ->
             balance_loop r (S i) counter' o c = Closed j ->
             exists body rest,
               ch :: r = body ++ c :: rest /\ j = i + length body /\ o <> c
               /\ (counter + depth body o c = 1)%Z
               /\ forall m, m <= length body ->
                            (1 <= counter + depth (firstn m body) o c)%Z).
  { intros counter' Hc' Ec H'.
    destruct (IH (S i) counter' Hc' H') as [body [rest [E [Ej [Hne [Hd Hm]]]]]].
    exists (ch :: body), rest. simpl. repeat split.
    - now rewrite E.
    - lia.
    - assumption.
    - lia.
    - intros [|m] Hle; simpl; [lia|].
      specialize (Hm m ltac:(lia)). lia. }
  destruct (ch =? o)%N eqn:Eo.
  - apply (Hstep (counter + 1)%Z); [lia | reflexivity | exact H].
  - destruct (ch =? c)%N eqn:Ec.
    + destruct (Z.eqb_spec (counter - 1) 0) as [E0|Hn0].
      * injection H as <-. apply N.eqb_eq in Ec. subst ch.
        exists [], r. simpl. repeat split; try lia.
        -- intros ->. now rewrite N.eqb_refl in Eo.
        -- intros m Hm. replace m with 0 by lia. simpl. lia.
      * apply (Hstep (counter - 1)%Z); [lia | lia | exact H].
    + apply (Hstep counter); [lia | lia | exact H].
Qed.

(** X4.  A structure the scanner returns starts at the first opening
    delimiter at or after the start index, begins with the opening and
    ends with the closing delimiter, which differ, is balanced, and no
    shorter piece of it from its start is: the depth is positive after
    every proper prefix. *)
Theorem find_balanced_structure_result (text_content : text) (start : nat) (o c : N)
        (s : text) :
  _find_balanced_structure text_content start o c = Some s ->
  exists pre body post,
    skipn start text_content = pre ++ s ++ post
    /\ ~ In o pre
    /\ s = o :: body ++ [c] /\ o <> c
    /\ depth s o c = 0%Z
    /\ forall m, 0 < m < length s -> (0 < depth (firstn m s) o c)%Z.
Proof.
  unfold _find_balanced_structure. intros H.
  destruct (struct_open_idx text_content start o) as [idx|] eqn:Hi; [|discriminate].
  destruct (struct_open_idx_inv _ _ _ _ Hi) as [pre [rest [E [Hn [Ei Es]]]]].
  rewrite Es in H. simpl in H. rewrite N.eqb_refl in H.
  destruct (balance_loop rest (S idx) 1 o c) as [j|] eqn:Hb; [|discriminate].
  injection H as <-.
  destruct (balance_loop_closed rest (S idx) 1%Z o c j ltac:(lia) Hb)
    as [body [post [Er [Ej [Hne [Hd Hm]]]]]].
  assert (Hs : slice text_content idx (j + 1) = o :: body ++ [c]).
  { unfold slice. rewrite Es, Er, Ej.
    replace (S idx + length body + 1 - idx) with (S (length (body ++ [c])))
      by (rewrite length_app; change (length [c]) with 1; lia).
    simpl. f_equal.
    change (c :: post) with ([c] ++ post). rewrite app_assoc.
    rewrite firstn_app, Nat.sub_diag, firstn_all. simpl. apply app_nil_r. }
  exists pre, body, post. rewrite Hs. repeat split; try assumption.
  - rewrite E, Er. simpl. now rewrite <- app_assoc.
  - rewrite depth_open, depth_app, depth_close by assumption. lia.
  - intros m [Hm0 Hml]. destruct m as [|m]; [lia|].
    cbn [length] in Hml. rewrite length_app in Hml. cbn [length] in Hml.
    cbn [firstn]. rewrite depth_open, firstn_app.
    replace (m - length body) with 0 by lia. cbn [firstn]. rewrite app_nil_r.
    specialize (Hm m ltac:(lia)). lia.
Qed.

Lemma find_balanced_structure_result_witness :
  _find_balanced_structure (T "a: {x{y}z} {w}") 2 123 125 = Some (T "{x{y}z}")
  /\ exists pre body post,
       skipn 2 (T "a: {x{y}z} {w}") = pre ++ T "{x{y}z}" ++ post
       /\ ~ In 123%N pre
       /\ T "{x{y}z}" = 123%N :: body ++ [125%N] /\ 123%N <> 125%N
       /\ depth (T "{x{y}z}") 123 125 = 0%Z
       /\ forall m, 0 < m < length (T "{x{y}z}") ->
                    (0 < depth (firstn m (T "{x{y}z}")) 123 125)%Z.
Proof.
  assert (H : _find_balanced_structure (T "a: {x{y}z} {w}") 2 123 125
              = Some (T "{x{y}z}")) by reflexivity.
  split; [exact H|].
  exact (find_balanced_structure_result _ 2 123%N 125%N _ H).
Defined.

(** ** More on the cascade *)

Lemma dict_update_app (acc x : dict) :
  NoDup (keys acc ++ keys x) -> dict_update acc x = acc ++ x.
Proof.
  unfold dict_update. revert acc. induction x as [|[k v] r IH]; intros acc H; simpl.
  - now rewrite app_nil_r.
  - rewrite dict_set_fresh.
    + rewrite IH; [now rewrite <- app_assoc|].
      unfold keys in *. rewrite map_app. simpl in *. now rewrite <- app_assoc.
    + simpl in H. apply NoDup_remove_2 in H. intros Hin. apply H.
      apply in_or_app. now left.
Qed.

Lemma py_update_trim (x : dict) :
  py_update [] (trim_data_recursively (JDict x)) = trim_items x [].
Proof.
  rewrite trim_dict_eq. simpl. apply (dict_update_app [] (trim_items x [])). simpl.
  pose proof (trim_well_trimmed (JDict x)) as H. rewrite trim_dict_eq in H.
  simpl in H. apply andb_true_iff in H. now apply distinct_NoDup.
Qed.

Lemma trimmed_mapping_ok (x : dict) : well_trimmed (JDict (trim_items x [])) = true.
Proof. rewrite <- trim_dict_eq. apply trim_well_trimmed. Qed.

Lemma and_then_ok (f : flow) (k : dict -> flow) :
  flow_ok f -> flow_ok (k []) -> flow_ok (and_then f k).
Proof. destruct f as [d|d]; simpl; [tauto|]. now intros ->. Qed.

Lemma result_ok (f : flow) : flow_ok f -> well_trimmed (JDict (result f)) = true.
Proof. destruct f as [d|d]; simpl; [tauto|]. now intros ->. Qed.

Lemma attempt_direct_ok (page ct : text) : flow_ok (attempt_direct page ct []).
Proof.
  unfold attempt_direct. destruct (contains application_json ct); [|reflexivity].
  destruct (json_loads page) as [[]|]; try reflexivity.
  destruct (designated_mapping d) as [inner|]; [|reflexivity].
  rewrite py_update_trim. destruct (trim_items inner []) eqn:E; [reflexivity|].
  cbn [nonempty flow_ok]. rewrite <- E. apply trimmed_mapping_ok.
Qed.

Lemma scripts_loop_ok (tags : list (option text)) : flow_ok (scripts_loop tags []).
Proof.
  induction tags as [|[s|] r IH]; cbn [scripts_loop]; try assumption; [reflexivity|].
  destruct (nonempty s); [|assumption].
  destruct (json_loads (strip s)) as [[]|]; try assumption.
  destruct (designated_mapping d) as [inner|].
  - rewrite py_update_trim. apply trimmed_mapping_ok.
  - destruct (script_looks_like_servers d); [|assumption].
    rewrite py_update_trim. apply trimmed_mapping_ok.
Qed.

Lemma blocks_loop_ok (matches : list rmatch) : flow_ok (blocks_loop matches []).
Proof.
  induction matches as [|m r IH]; cbn [blocks_loop]; [reflexivity|].
  destruct (json_loads _) as [[]|]; try assumption.
  destruct (designated_mapping d) as [inner|].
  - rewrite py_update_trim. apply trimmed_mapping_ok.
  - destruct (block_looks_like_servers d); [|assumption].
    rewrite py_update_trim. apply trimmed_mapping_ok.
Qed.

Lemma key_search_loop_ok (rt : Runtime) (fuel : nat) (plain : text) (idx : nat) :
  flow_ok (key_search_loop rt fuel plain idx []).
Proof.
  revert idx. induction fuel as [|fuel IH]; intros idx; cbn [key_search_loop];
    [reflexivity|].
  destruct (find mcp_servers_key_str plain idx) as [k|]; [|reflexivity].
  destruct (re_search re_ws_colon _); [|apply IH].
  destruct (_find_balanced_structure plain _ 123 125) as [s|]; [|apply IH].
  destruct (nonempty s); [|apply IH].
  destruct (_try_parse_json rt s); try apply IH.
  rewrite py_update_trim. destruct (trim_items d []) eqn:E; [apply IH|].
  cbn [nonempty flow_ok]. rewrite <- E. apply trimmed_mapping_ok.
Qed.

Lemma record_of_ok (m : rmatch) :
  edge_clean (key_of m) = true /\ well_trimmed (record_of m) = true.
Proof.
  unfold key_of, record_of, synthesized, cleaned. split.
  - apply edge_clean_spec, strip_clean_edges.
  - cbn [well_trimmed forallb].
    rewrite !(proj2 (edge_clean_spec (strip _)) (strip_clean_edges _)).
    reflexivity.
Qed.

Lemma npx_loop_ok (matches : list rmatch) (d : dict) :
  well_trimmed (JDict d) = true -> well_trimmed (JDict (npx_loop matches d)) = true.
Proof.
  revert d. induction matches as [|m r IH]; intros d H; [exact H|].
  rewrite npx_loop_step. apply IH. cbn [well_trimmed] in H |- *.
  apply andb_true_iff in H. destruct H as [Hd Hf].
  destruct (record_of_ok m) as [Hk Hr].
  apply andb_true_iff. split.
  - apply distinct_NoDup. apply (dict_set_keys_NoDup d). now apply distinct_NoDup.
  - rewrite forallb_forall in *. apply Forall_forall.
    apply dict_set_Forall; [now apply Forall_forall|]. cbn [fst snd].
    now rewrite Hk, Hr.
Qed.

Lemma npx_loop_nonempty (matches : list rmatch) (d : dict) :
  matches <> [] \/ d <> [] -> npx_loop matches d <> [].
Proof.
  revert d. induction matches as [|m r IH]; intros d H.
  - destruct H; [contradiction | assumption].
  - rewrite npx_loop_step. apply IH. right. apply dict_set_nonempty.
Qed.

Lemma attempt_npx_ok (rt : Runtime) (plain : text) : flow_ok (attempt_npx rt plain []).
Proof.
  unfold attempt_npx. destruct (re_finditer _ plain) as [|m r]; [reflexivity|].
  cbn [nonempty flow_ok]. now apply npx_loop_ok.
Qed.

(** X6.  Whatever the response and the environment, the set the cascade
    returns has distinct names and no string in it, name, key or value,
    has whitespace at either end. *)
Theorem parse_page_content_for_data_well_trimmed (rt : Runtime)
        (resp : text * option text) :
  well_trimmed (JDict (parse_page_content_for_data rt resp)) = true.
Proof.
  unfold parse_page_content_for_data. apply result_ok.
  apply and_then_ok; [apply attempt_direct_ok|].
  apply and_then_ok.
  { unfold attempt_scripts. simpl. destruct (soup_script_strings rt _);
      [apply scripts_loop_ok | reflexivity]. }
  apply and_then_ok; [reflexivity|].
  apply and_then_ok; [apply blocks_loop_ok|].
  apply and_then_ok; [reflexivity|].
  apply and_then_ok; [apply key_search_loop_ok|].
  apply and_then_ok; [reflexivity|].
  apply attempt_npx_ok.
Qed.

(** X5.  When the content type names JSON and the body parses to a mapping
    with a non-empty mapping under the designated key, the cascade returns
    that mapping trimmed, whatever else the page holds and whatever the
    environment answers. *)
Theorem direct_json_has_priority (rt : Runtime) (page ct : text) (d inner : dict) :
  contains application_json (lower rt ct) = true ->
  json_loads page = Some (JDict d) ->
  designated_mapping d = Some inner ->
  inner <> [] ->
  JDict (parse_page_content_for_data rt (page, Some ct))
  = trim_data_recursively (JDict inner).
Proof.
  intros Hct Hj Hd Hn. unfold parse_page_content_for_data. cbn [fst snd].
  unfold attempt_direct. rewrite Hct, Hj, Hd, py_update_trim, trim_dict_eq.
  destruct (trim_items inner []) eqn:E.
  - exfalso. apply (trim_items_nonempty inner []); [now left | exact E].
  - reflexivity.
Qed.

Lemma direct_json_has_priority_witness :
  let page := Q "{'mcpServers': {' w ': {'command': 'python'}}, 'note': 'npx -y other run'}" in
  let rt := ascii_plain_pages offline in
  let d := [(T "mcpServers", JDict [(T " w ", JDict [(T "command", JStr (T "python"))])]);
            (T "note", JStr (T "npx -y other run"))] in
  contains application_json (lower rt (T "Application/JSON; charset=utf-8")) = true
  /\ json_loads page = Some (JDict d)
  /\ JDict (parse_page_content_for_data rt
              (page, Some (T "Application/JSON; charset=utf-8")))
     = JDict [(T "w", JDict [(T "command", JStr (T "python"))])].
Proof.
  intros page rt d.
  assert (H1 : contains application_json
                 (lower rt (T "Application/JSON; charset=utf-8")) = true) by reflexivity.
  assert (H2 : json_loads page = Some (JDict d)) by (vm_compute; reflexivity).
  split; [exact H1|]. split; [exact H2|].
  rewrite (direct_json_has_priority rt page _ d
             [(T " w ", JDict [(T "command", JStr (T "python"))])] H1 H2 eq_refl);
    [reflexivity | discriminate].
Defined.

Lemma key_search_loop_returns (rt : Runtime) (fuel : nat) (plain : text) (idx : nat)
      (d0 d : dict) :
  key_search_loop rt fuel plain idx d0 = Return d -> d <> [].
Proof.
  revert idx d0. induction fuel as [|fuel IH]; intros idx d0 H;
    cbn [key_search_loop] in H; [discriminate|].
  destruct (find mcp_servers_key_str plain idx) as [k|]; [|discriminate].
  destruct (re_search re_ws_colon _); [|now apply IH in H].
  destruct (_find_balanced_structure plain _ 123 125) as [s|]; [|now apply IH in H].
  destruct (nonempty s); [|now apply IH in H].
  destruct (_try_parse_json rt s); try (now apply IH in H).
  destruct (py_update d0 _) eqn:E; cbn [nonempty] in H; [now apply IH in H|].
  injection H as <-. discriminate.
Qed.

Lemma attempt_direct_returns (page ct : text) (d0 d : dict) :
  attempt_direct page ct d0 = Return d -> d <> [].
Proof.
  unfold attempt_direct.
  destruct (contains application_json ct); [|discriminate].
  destruct (json_loads page) as [[]|]; try discriminate.
  destruct (designated_mapping _); [|discriminate].
  cbv zeta. remember (py_update d0 _) as u eqn:Eu. clear Eu.
  destruct u; simpl; [discriminate|]. intros H. injection H as <-. discriminate.
Qed.

(** X7.  The direct, free-text and npx strategies never return an empty
    set, whatever the data accumulated before them. *)
Theorem guarded_strategies_return_data (rt : Runtime) (d0 d : dict) :
  (forall page ct, attempt_direct page ct d0 = Return d -> d <> [])
  /\ (forall plain, attempt_key_search rt plain d0 = Return d -> d <> [])
  /\ (forall plain, attempt_npx rt plain d0 = Return d -> d <> []).
Proof.
  split; [|split].
  - intros page ct. apply attempt_direct_returns.
  - intros plain. apply key_search_loop_returns.
  - intros plain. unfold attempt_npx.
    destruct (re_finditer _ plain) as [|m r] eqn:E; [discriminate|].
    cbn [nonempty]. intros H. injection H as <-.
    apply (npx_loop_nonempty (m :: r) d0). left. discriminate.
Qed.

Lemma guarded_strategies_return_data_witness :
  let rt := ascii_plain_pages offline in
  let d := [(T "tool", synthesized (T "tool") (T "run"))] in
  attempt_npx rt (T "npx -y tool run") [] = Return d /\ d <> [].
Proof.
  intros rt d.
  assert (H : attempt_npx rt (T "npx -y tool run") [] = Return d) by reflexivity.
  split; [exact H|].
  exact (proj2 (proj2 (guarded_strategies_return_data rt [] d)) _ H).
Defined.

(** X8.  On a page with no script element of the type and no fenced JSON
    block, an npx phrase in the plain text makes the result of the cascade
    non-empty. *)
Theorem npx_phrase_is_found (rt : Runtime) (page : text) (header : option text) :
  soup_script_strings rt page = None \/ soup_script_strings rt page = Some [] ->
  re_finditer json_code_block_pattern page = [] ->
  re_finditer (npx_command_pattern rt)
    (plain_text rt page (lower rt (match header with Some h => h | None => [] end)))
  <> [] ->
  parse_page_content_for_data rt (page, header) <> [].
Proof.
  intros Hs Hb Hn. unfold parse_page_content_for_data. cbn [fst snd].
  set (ct := lower rt (match header with Some h => h | None => [] end)) in *.
  destruct (attempt_direct page ct []) as [d|d] eqn:E1.
  { simpl. exact (attempt_direct_returns page ct [] d E1). }
  pose proof (attempt_direct_ok page ct) as Hd. rewrite E1 in Hd. simpl in Hd. subst d.
  cbn [and_then]. unfold attempt_scripts. cbn [nonempty negb].
  assert (Hsc : match soup_script_strings rt page with
                | Some tags => scripts_loop tags []
                | None => Continue []
                end = Continue []) by (destruct Hs as [-> | ->]; reflexivity).
  rewrite Hsc. cbn [and_then return_if_nonempty nonempty].
  unfold attempt_code_blocks. rewrite Hb.
  cbn [blocks_loop and_then return_if_nonempty nonempty]. cbv zeta.
  destruct (attempt_key_search rt (plain_text rt page ct) []) as [d|d] eqn:E2.
  { simpl. revert E2. apply key_search_loop_returns. }
  pose proof (key_search_loop_ok rt (S (length (plain_text rt page ct)))
                (plain_text rt page ct) 0) as Hk.
  fold (attempt_key_search rt (plain_text rt page ct) []) in Hk. rewrite E2 in Hk.
  simpl in Hk. subst d. cbn [and_then return_if_nonempty nonempty].
  unfold attempt_npx. cbv zeta.
  destruct (re_finditer (npx_command_pattern rt) (plain_text rt page ct))
    as [|m r] eqn:En; [contradiction|].
  cbn [nonempty result]. apply (npx_loop_nonempty (m :: r) []). left. discriminate.
Qed.

Lemma npx_phrase_is_found_witness :
  let rt := ascii_plain_pages offline in
  let page := T "Run it: npx -y @acme/tool mcp serve" in
  (soup_script_strings rt page = None \/ soup_script_strings rt page = Some [])
  /\ re_finditer json_code_block_pattern page = []
  /\ parse_page_content_for_data rt (page, None) <> [].
Proof.
  intros rt page.
  assert (H1 : soup_script_strings rt page = None \/ soup_script_strings rt page = Some [])
    by (right; reflexivity).
  assert (H2 : re_finditer json_code_block_pattern page = []) by reflexivity.
  split; [exact H1|]. split; [exact H2|].
  apply (npx_phrase_is_found rt page None H1 H2). discriminate.
Defined.

Lemma scripts_loop_skip (t : option text) (rest : list (option text)) (d : dict) :
  no_script_match t -> scripts_loop (t :: rest) d = scripts_loop rest d.
Proof.
  intros H. cbn [scripts_loop]. destruct t as [s|]; [|reflexivity].
  destruct H as [-> | H]; [reflexivity|].
  destruct (nonempty s); [|reflexivity].
  destruct (json_loads (strip s)) as [[]|]; try reflexivity.
  destruct H as [-> ->]. reflexivity.
Qed.

Lemma blocks_loop_skip (m : rmatch) (rest : list rmatch) (d : dict) :
  no_block_match m -> blocks_loop (m :: rest) d = blocks_loop rest d.
Proof.
  unfold no_block_match. intros H. cbn [blocks_loop]. cbv zeta.
  destruct (json_loads (strip (group (m_groups m) 1))) as [[]|]; try reflexivity.
  destruct H as [-> ->]. reflexivity.
Qed.

(** X9.  The script-tag and fenced-block strategies pass over the
    candidates that do not parse or match neither heuristic, and the first
    candidate that gives a result decides: the candidates after it are not
    looked at. *)
Theorem first_matching_candidate_wins :
  (forall bad rest d,
      Forall no_script_match bad -> scripts_loop (bad ++ rest) d = scripts_loop rest d)
  /\ (forall t rest d x,
         scripts_loop [t] d = Return x -> scripts_loop (t :: rest) d = Return x)
  /\ (forall bad rest d,
         Forall no_block_match bad -> blocks_loop (bad ++ rest) d = blocks_loop rest d)
  /\ (forall m rest d x,
         blocks_loop [m] d = Return x -> blocks_loop (m :: rest) d = Return x).
Proof.
  split; [|split; [|split]].
  - intros bad rest d H. induction H as [|t bad Ht _ IH]; [reflexivity|].
    simpl app. now rewrite scripts_loop_skip.
  - intros t rest d x. cbn [scripts_loop]. destruct t as [s|]; [|discriminate].
    destruct (nonempty s); [|discriminate].
    destruct (json_loads (strip s)) as [[]|]; try discriminate.
    destruct (designated_mapping d0); [tauto|].
    destruct (script_looks_like_servers d0); [tauto | discriminate].
  - intros bad rest d H. induction H as [|m bad Hm _ IH]; [reflexivity|].
    simpl app. now rewrite blocks_loop_skip.
  - intros m rest d x. cbn [blocks_loop]. cbv zeta.
    destruct (json_loads (strip (group (m_groups m) 1))) as [[]|]; try discriminate.
    destruct (designated_mapping d0); [tauto|].
    destruct (block_looks_like_servers d0); [tauto | discriminate].
Qed.

Lemma first_matching_candidate_wins_witness :
  let bad := [None; Some (T "  "); Some (T "{oops"); Some (T "[1]");
              Some (Q "{'a': 1}")] in
  let good := Some (Q " {'mcpServers': {'w ': {'command': 'x'}}} ") in
  Forall no_script_match bad
  /\ scripts_loop [good] [] = Return [(T "w", JDict [(T "command", JStr (T "x"))])]
  /\ scripts_loop (bad ++ good :: [Some (Q "{'mcpServers': {'z': {}}}")]) []
     = Return [(T "w", JDict [(T "command", JStr (T "x"))])].
Proof.
  intros bad good.
  assert (Hb : Forall no_script_match bad).
  { repeat constructor; right; vm_compute; try exact I; now split. }
  assert (Hg : scripts_loop [good] []
               = Return [(T "w", JDict [(T "command", JStr (T "x"))])])
    by (vm_compute; reflexivity).
  split; [exact Hb|]. split; [exact Hg|].
  rewrite (proj1 first_matching_candidate_wins bad _ [] Hb).
  exact (proj1 (proj2 first_matching_candidate_wins) good _ [] _ Hg).
Defined.


Lemma key_search_loop_turn (rt : Runtime) (fuel : nat) (plain : text) (idx : nat)
      (d : dict) :
  key_search_loop rt (S fuel) plain idx d
  = match key_search_turn rt plain idx d with
    | Break => Continue d
    | Returned d' => Return d'
    | Next idx' d' => key_search_loop rt fuel plain idx' d'
    end.
Proof.
  unfold key_search_turn. cbn [key_search_loop].
  destruct (find mcp_servers_key_str plain idx) as [k|]; [|reflexivity].
  cbv zeta.
  destruct (re_search re_ws_colon _); [|reflexivity].
  destruct (_find_balanced_structure plain _ 123 125) as [t|]; [|reflexivity].
  destruct (nonempty t); [|reflexivity].
  destruct (_try_parse_json rt t); try reflexivity.
  now destruct (nonempty _).
Qed.

(** A turn that does not leave the loop moves the search index past the
    occurrence of the key it found. *)
Lemma key_search_turn_advances (rt : Runtime) (plain : text) (idx idx' : nat)
      (d d' : dict) :
  key_search_turn rt plain idx d = Next idx' d' ->
  idx + length mcp_servers_key_str <= idx' /\ idx' <= length plain.
Proof.
  unfold key_search_turn.
  destruct (find mcp_servers_key_str plain idx) as [k|] eqn:F; [|discriminate].
  apply find_bounds in F. cbv zeta.
  change (length mcp_servers_key_str) with 12 in *.
  assert (Hn : forall d0, Next (k + 12) d0 = Next idx' d' ->
                 idx + 12 <= idx' /\ idx' <= length plain)
    by (intros d0 E; injection E as E _; lia).
  destruct (re_search re_ws_colon _); [|apply Hn].
  destruct (_find_balanced_structure plain _ 123 125) as [t|]; [|apply Hn].
  destruct (nonempty t); [|apply Hn].
  destruct (_try_parse_json rt t); try apply Hn.
  destruct (nonempty _); [discriminate | apply Hn].
Qed.

(** X10.  The loop of the free-text strategy ends: every turn that does
    not leave the loop moves the search index forward by at least the
    length of the key, so from index [idx] the loop is left, by [break] or
    by [return], after at most [len(text) - idx + 1] turns; the strategy
    gives the outcome of that run whenever it is allowed that many turns. *)
Theorem key_search_loop_terminates (rt : Runtime) (plain : text) (idx : nat)
        (d : dict) :
  exists n f,
    key_search_run rt plain idx d n f
    /\ n <= S (length plain - idx)
    /\ forall fuel, n <= fuel -> key_search_loop rt fuel plain idx d = f.
Proof.
  remember (length plain - idx) as k eqn:Hk.
  revert idx d Hk. induction k as [k IH] using lt_wf_ind. intros idx d Hk.
  destruct (key_search_turn rt plain idx d) as [|d'|idx' d'] eqn:E.
  - exists 1, (Continue d). split; [now constructor|]. split; [lia|].
    intros [|fuel] Hf; [lia|]. now rewrite key_search_loop_turn, E.
  - exists 1, (Return d'). split; [now constructor|]. split; [lia|].
    intros [|fuel] Hf; [lia|]. now rewrite key_search_loop_turn, E.
  - pose proof (key_search_turn_advances rt plain idx idx' d d' E) as [H1 H2].
    change (length mcp_servers_key_str) with 12 in H1.
    destruct (IH (length plain - idx') ltac:(lia) idx' d' eq_refl)
      as [n [f [Hr [Hn Hf]]]].
    exists (S n), f. split; [now apply (run_next rt plain idx d idx' d')|].
    split; [lia|].
    intros [|fuel] Hfu; [lia|]. rewrite key_search_loop_turn, E. apply Hf. lia.
Qed.

(** ** More on the accumulator *)

Lemma has_entry_mono (C added : list json) (k u : text) :
  has_entry (C ++ added) k u = false -> has_entry C k u = false.
Proof.
  unfold has_entry. rewrite existsb_app. intros H.
  now apply orb_false_iff in H.
Qed.

Lemma merge_items_added (items : dict) (u : text) (C : list json) (n : nat) :
  exists added,
    merged_list (merge_items items u C n) = C ++ added
    /\ new_items_added (merge_items items u C n) = n + length added
    /\ Forall (fun e => exists name body,
                   In (name, JDict body) items
                   /\ e = JDict (item_to_add name body u)
                   /\ has_entry C name u = false) added.
Proof.
  revert C n. induction items as [|[k v] r IH]; intros C n.
  - exists []. simpl. now rewrite app_nil_r, Nat.add_0_r.
  - assert (Hskip : exists added,
               merged_list (merge_items r u C n) = C ++ added
               /\ new_items_added (merge_items r u C n) = n + length added
               /\ Forall (fun e => exists name body,
                              In (name, JDict body) ((k, v) :: r)
                              /\ e = JDict (item_to_add name body u)
                              /\ has_entry C name u = false) added).
    { destruct (IH C n) as [added [H1 [H2 H3]]].
      exists added. repeat split; try assumption.
      apply Forall_impl with (2 := H3).
      intros e [name [body [Hin He]]]. exists name, body. split; [now right | exact He]. }
    destruct v; try exact Hskip.
    cbn [merge_items].
    destruct (is_duplicate C k u) as [[|]|] eqn:E.
    + exact Hskip.
    + destruct (IH (C ++ [JDict (item_to_add k d u)]) (S n)) as [added [H1 [H2 H3]]].
      exists (JDict (item_to_add k d u) :: added).
      rewrite H1, H2, <- app_assoc. simpl. repeat split; try lia.
      constructor.
      * exists k, d. split; [now left|]. split; [reflexivity|].
        rewrite (is_duplicate_dicts C k u (is_duplicate_false C k u E)) in E.
        congruence.
      * apply Forall_impl with (2 := H3).
        intros e [name [body [Hin [He Hf]]]]. exists name, body.
        split; [now right|]. split; [exact He|]. now apply has_entry_mono in Hf.
    + exists []. simpl. now rewrite app_nil_r, Nat.add_0_r.
Qed.

(** X11.  A merge only appends: the collection it leaves is the given one
    followed by the entries it counts, each the candidate of a pair of the
    set with a mapping body, for a name the given collection did not have
    under the URL. *)
Theorem merge_is_append_only (D : dict) (u : text) (C : list json) :
  exists added,
    merged_list (merge D u C) = C ++ added
    /\ new_items_added (merge D u C) = length added
    /\ Forall (fun e => exists name body,
                   In (name, JDict body) D
                   /\ e = JDict (item_to_add name body u)
                   /\ has_entry C name u = false) added.
Proof. apply (merge_items_added D u C 0). Qed.

Lemma has_entry_pairs (C : list json) (k u : text) :
  has_entry C k u = true <-> In (k, u) (str_pairs C).
Proof.
  unfold has_entry, str_pairs. rewrite existsb_exists, in_flat_map.
  split; intros [e [Hin H]]; exists e; (split; [assumption|]).
  - destruct e; try discriminate.
    apply andb_true_iff in H. destruct H as [H1 H2].
    apply eq_str_spec in H1. apply eq_str_spec in H2. rewrite H1, H2. now left.
  - destruct e; try contradiction.
    destruct (dict_get d (T "id")) as [[]|]; try contradiction.
    destruct (dict_get d (T "source_url")) as [[]|]; try contradiction.
    destruct H as [E | []]. injection E as -> ->. simpl.
    now rewrite !text_eqb_refl.
Qed.

Lemma str_pairs_snoc (C : list json) (k u : text) (body : dict) :
  str_pairs (C ++ [JDict (item_to_add k body u)]) = str_pairs C ++ [(k, u)].
Proof.
  unfold str_pairs. rewrite flat_map_app. simpl.
  now rewrite id_field, source_url_field.
Qed.

Lemma NoDup_snoc (A : Type) (l : list A) (x : A) :
  NoDup l -> ~ In x l -> NoDup (l ++ [x]).
Proof.
  induction l as [|y l IH]; simpl; intros Hn Hx.
  - constructor; [tauto | constructor].
  - inversion Hn as [|? ? Hy Hl]; subst. constructor.
    + intros Hin. apply in_app_or in Hin. destruct Hin as [Hin | [-> | []]]; tauto.
    + apply IH; tauto.
Qed.

Lemma merge_items_pairs (items : dict) (u : text) (C : list json) (n : nat) :
  NoDup (str_pairs C) -> NoDup (str_pairs (merged_list (merge_items items u C n))).
Proof.
  revert C n. induction items as [|[k v] r IH]; intros C n H; [exact H|].
  cbn [merge_items]. destruct v; try now apply IH.
  destruct (is_duplicate C k u) as [[|]|] eqn:E; [now apply IH | | exact H].
  apply IH. rewrite str_pairs_snoc. apply NoDup_snoc; [exact H|].
  intros Hin. apply has_entry_pairs in Hin.
  rewrite (is_duplicate_dicts C k u (is_duplicate_false C k u E)) in E. congruence.
Qed.

(** X12.  If no two entries of the collection carry the same
    [(id, source_url)] strings, none do after a merge, whatever the set
    and the URL. *)
Theorem merge_keeps_pairs_unique (D : dict) (u : text) (C : list json) :
  NoDup (str_pairs C) -> NoDup (str_pairs (merged_list (merge D u C))).
Proof. apply merge_items_pairs. Qed.

Lemma merge_keeps_pairs_unique_witness :
  let u := T "https://example.com/a" in
  let C := [JDict (item_to_add (T "weather") [] u); JDict [(T "id", JInt 3)]] in
  let D := [(T "weather", JDict []); (T "search", JDict [(T "command", JStr (T "s"))])] in
  NoDup (str_pairs C)
  /\ NoDup (str_pairs (merged_list (merge D u C)))
  /\ str_pairs (merged_list (merge D u C)) = [(T "weather", u); (T "search", u)].
Proof.
  intros u C D.
  assert (H : NoDup (str_pairs C)).
  { constructor; [intros [] | constructor]. }
  split; [exact H|]. split; [|reflexivity].
  exact (merge_keeps_pairs_unique D u C H).
Defined.

(** X13.  A merge into a collection of mappings never raises; a merge
    that raises met an item that is not a mapping and has appended nothing
    and counted nothing. *)
Theorem merge_exception_safety (D : dict) (u : text) (C : list json) :
  (forallb is_dict C = true -> raised (merge D u C) = false)
  /\ (raised (merge D u C) = true ->
      forallb is_dict C = false
      /\ merged_list (merge D u C) = C /\ new_items_added (merge D u C) = 0).
Proof.
  unfold merge. split.
  - intros H. apply (merge_items_all_dicts D u C 0 H).
  - intros Hr. destruct (forallb is_dict C) eqn:E.
    + destruct (merge_items_all_dicts D u C 0 E) as [Hf _]. congruence.
    + split; [reflexivity|]. apply (merge_items_not_all_dicts D u C 0 E).
Qed.

Lemma merge_exception_safety_witness :
  let u := T "https://example.com/a" in
  let D := [(T "weather", JDict [])] in
  forallb is_dict [JDict []] = true /\ raised (merge D u [JDict []]) = false
  /\ raised (merge D u [JInt 5]) = true
  /\ merged_list (merge D u [JInt 5]) = [JInt 5]
  /\ new_items_added (merge D u [JInt 5]) = 0.
Proof.
  intros u D.
  assert (H1 : forallb is_dict [JDict []] = true) by reflexivity.
  assert (H2 : raised (merge D u [JInt 5]) = true) by reflexivity.
  split; [exact H1|].
  split; [exact (proj1 (merge_exception_safety D u [JDict []]) H1)|].
  split; [exact H2|].
  exact (proj2 (proj2 (merge_exception_safety D u [JInt 5]) H2)).
Defined.

(** ** More on the loop over the URLs *)

Lemma output_file_app (a b : list event) (f : file_state) :
  output_file (a ++ b) f = output_file b (output_file a f).
Proof.
  revert f. induction a as [|ev a IH]; intros f; [reflexivity|].
  destruct ev; simpl; apply IH.
Qed.

Lemma process_url_step (rt : Runtime) (st : run_state) (url : text) :
  exists added evs,
    all_mcp_servers_list (process_url rt st url) = all_mcp_servers_list st ++ added
    /\ Forall (entry_for url) added
    /\ log (process_url rt st url) = log st ++ evs
    /\ ((added <> []
         /\ processed_urls (process_url rt st url) = url :: processed_urls st
         /\ forall f,
              output_file evs f
              = if write_output rt (S (urls_checked_count st))
                     (all_mcp_servers_list (process_url rt st url))
                then Holds (all_mcp_servers_list (process_url rt st url))
                else Unknown)
        \/ (added = []
            /\ processed_urls (process_url rt st url) = processed_urls st
            /\ forall f, output_file evs f = f)).
Proof.
  assert (Hsame : forall evs st',
             all_mcp_servers_list st' = all_mcp_servers_list st ->
             processed_urls st' = processed_urls st ->
             log st' = log st ++ evs -> (forall f, output_file evs f = f) ->
             exists added evs0,
               all_mcp_servers_list st' = all_mcp_servers_list st ++ added
               /\ Forall (entry_for url) added
               /\ log st' = log st ++ evs0
               /\ ((added <> [] /\ processed_urls st' = url :: processed_urls st
                    /\ forall f,
                         output_file evs0 f
                         = if write_output rt (S (urls_checked_count st))
                                (all_mcp_servers_list st')
                           then Holds (all_mcp_servers_list st')
                           else Unknown)
                   \/ (added = [] /\ processed_urls st' = processed_urls st
                       /\ forall f, output_file evs0 f = f))).
  { intros evs st' H1 H2 H3 H4. exists [], evs. rewrite app_nil_r.
    split; [assumption|]. split; [constructor|]. split; [assumption|].
    right. now repeat split. }
  unfold process_url. destruct (in_set url (processed_urls st)).
  { apply (Hsame [Skipped url]); reflexivity. }
  cbv zeta. cbn [urls_checked_count all_mcp_servers_list processed_urls log].
  destruct (http_get rt _ url) as [resp|];
    [|apply (Hsame [Requested url]); reflexivity].
  destruct (nonempty (parse_page_content_for_data rt resp));
    [|apply (Hsame [Requested url]); reflexivity].
  set (D := parse_page_content_for_data rt resp).
  destruct (raised (merge D url (all_mcp_servers_list st))) eqn:Hr.
  { apply (Hsame [Requested url]); try reflexivity.
    cbn. now apply merge_raised_unchanged. }
  destruct (merge_items_added D url (all_mcp_servers_list st) 0)
    as [added [Hl [Hn Hf]]].
  fold (merge D url (all_mcp_servers_list st)) in Hl, Hn.
  destruct (0 <? new_items_added (merge D url (all_mcp_servers_list st))) eqn:Hc.
  - exists added. eexists. cbn [all_mcp_servers_list processed_urls log].
    split; [exact Hl|]. split.
    { apply Forall_impl with (2 := Hf). intros e [name [body [_ [He _]]]].
      now exists name, body. }
    split; [rewrite <- app_assoc; reflexivity|].
    left. split; [|split; [reflexivity|]].
    + apply Nat.ltb_lt in Hc. intros ->. simpl in Hn. lia.
    + intros f. cbn [app output_file].
      now destruct (write_output rt _ _).
  - apply (Hsame [Requested url; Merged url (new_items_added
                                               (merge D url (all_mcp_servers_list st)))]);
      try reflexivity; cbn [all_mcp_servers_list log].
    + apply Nat.ltb_ge in Hc. rewrite Hl.
      destruct added; [apply app_nil_r | simpl in Hn; lia].
    + now rewrite <- app_assoc.
Qed.

Lemma run_loop_persists (rt : Runtime) (urls : list text) (st : run_state) :
  exists added evs,
    all_mcp_servers_list (run_loop rt urls st) = all_mcp_servers_list st ++ added
    /\ log (run_loop rt urls st) = log st ++ evs
    /\ ((added = [] /\ forall f, output_file evs f = f)
        \/ (forall f, output_file evs f = Holds (all_mcp_servers_list (run_loop rt urls st)))
        \/ (added <> [] /\ (forall f, output_file evs f = Unknown)
            /\ exists n c, write_output rt n c = false)).
Proof.
  revert st. induction urls as [|url r IH]; intros st.
  - exists [], []. simpl. rewrite !app_nil_r. split; [reflexivity|].
    split; [reflexivity|]. left. now split.
  - change (run_loop rt (url :: r) st) with (run_loop rt r (process_url rt st url)).
    destruct (process_url_step rt st url) as [a1 [e1 [Hl1 [_ [Hg1 Hc1]]]]].
    destruct (IH (process_url rt st url)) as [a2 [e2 [Hl2 [Hg2 Hw2]]]].
    exists (a1 ++ a2), (e1 ++ e2).
    split; [now rewrite Hl2, Hl1, app_assoc|].
    split; [now rewrite Hg2, Hg1, app_assoc|].
    destruct Hw2 as [[Ha2 Hw2] | [Hw2 | [Ha2 [Hw2 Hx]]]].
    + subst a2. rewrite app_nil_r in *.
      destruct Hc1 as [[Hne [_ Hw1]] | [Ha [_ Hw1]]].
      * destruct (write_output rt (S (urls_checked_count st))
                    (all_mcp_servers_list (process_url rt st url))) eqn:W.
        -- right. left. intros f. now rewrite output_file_app, Hw2, Hw1, Hl2.
        -- right. right. split; [exact Hne|]. split.
           ++ intros f. now rewrite output_file_app, Hw2, Hw1.
           ++ eauto.
      * left. split; [exact Ha|]. intros f. now rewrite output_file_app, Hw2, Hw1.
    + right. left. intros f. now rewrite output_file_app, Hw2.
    + right. right. split.
      * intros H. apply app_eq_nil in H. tauto.
      * split; [|exact Hx]. intros f. now rewrite output_file_app, Hw2.
Qed.

(** X14.  A run only appends to the loaded collection.  At its end, a
    file the run never wrote means that nothing was appended; a file whose
    last write completed holds exactly the final collection; and the file
    is in an unknown state only when a write raised, and then appended
    entries exist in memory only. *)
Theorem main_appends_and_persists (rt : Runtime) (urls : list text)
        (loaded : list json) (st : run_state) :
  main_on rt urls loaded = Some st ->
  exists added,
    all_mcp_servers_list st = loaded ++ added
    /\ match output_file (log st) Untouched with
       | Untouched => added = []
       | Holds c => c = all_mcp_servers_list st
       | Unknown => added <> [] /\ exists n c, write_output rt n c = false
       end.
Proof.
  unfold main_on. destruct (load_processed_urls loaded []) as [p|]; [|discriminate].
  intros H. injection H as <-.
  destruct (run_loop_persists rt urls
              {| all_mcp_servers_list := loaded; processed_urls := p;
                 urls_checked_count := 0; log := [] |}) as [added [evs [Hl [Hg Hw]]]].
  exists added. split; [exact Hl|]. rewrite Hg. cbn [log app].
  destruct Hw as [[Ha Hw] | [Hw | [Ha [Hw Hx]]]]; rewrite Hw; tauto.
Qed.

Lemma main_appends_and_persists_witness :
  let u := T "https://example.com/servers.json" in
  let page := (Q "{'mcpServers': {'weather': {'command': 'python'}}}",
               Some (T "application/json")) in
  let rt := ascii_plain_pages (fun _ url => if text_eqb url u then Some page else None) in
  let entry := JDict [(T "command", JStr (T "python")); (T "id", JStr (T "weather"));
                      (T "source_url", JStr u)] in
  let st := {| all_mcp_servers_list := [entry]; processed_urls := [u];
               urls_checked_count := 2;
               log := [Requested (T "https://example.com/missing"); Requested u;
                       Merged u 1; Marked u; Wrote [entry]; Skipped u] |} in
  let st' := {| all_mcp_servers_list := [entry]; processed_urls := [u];
                urls_checked_count := 1;
                log := [Requested u; Merged u 1; Marked u; WriteFailed [entry];
                        Skipped u] |} in
  (main_on rt [T "https://example.com/missing"; u; u] [] = Some st
   /\ exists added,
        all_mcp_servers_list st = [] ++ added
        /\ match output_file (log st) Untouched with
           | Untouched => added = []
           | Holds c => c = all_mcp_servers_list st
           | Unknown => added <> [] /\ exists n c, write_output rt n c = false
           end)
  /\ (main_on (read_only_disk rt) [u; u] [] = Some st'
      /\ exists added,
           all_mcp_servers_list st' = [] ++ added
           /\ match output_file (log st') Untouched with
              | Untouched => added = []
              | Holds c => c = all_mcp_servers_list st'
              | Unknown =>
                  added <> [] /\ exists n c, write_output (read_only_disk rt) n c = false
              end).
Proof.
  intros u page rt entry st st'.
  assert (H : main_on rt [T "https://example.com/missing"; u; u] [] = Some st)
    by (vm_compute; reflexivity).
  assert (H' : main_on (read_only_disk rt) [u; u] [] = Some st')
    by (vm_compute; reflexivity).
  split; (split; [assumption|]).
  - exact (main_appends_and_persists rt _ [] st H).
  - exact (main_appends_and_persists (read_only_disk rt) _ [] st' H').
Defined.

Lemma load_processed_urls_some (items : list json) (acc : list text) :
  hashable_urls items = true <-> exists p, load_processed_urls items acc = Some p.
Proof.
  revert acc. induction items as [|item r IH]; intros acc; simpl.
  - split; [now exists acc | reflexivity].
  - rewrite andb_true_iff. destruct item; try (rewrite <- IH; tauto).
    destruct (dict_get d (T "source_url")) as [[]|]; try (rewrite <- IH; tauto);
      split; try (intros [? _]; discriminate); intros [p ?]; discriminate.
Qed.

Lemma load_processed_urls_complete (items : list json) (acc p : list text) (u : text) :
  load_processed_urls items acc = Some p -> In u p ->
  In u acc \/ source_of items u.
Proof.
  revert acc. induction items as [|item r IH]; intros acc H Hin; simpl in H.
  - injection H as <-. now left.
  - assert (Hrest : forall acc', load_processed_urls r acc' = Some p ->
                       (In u acc' -> In u acc \/ source_of (item :: r) u) ->
                       In u acc \/ source_of (item :: r) u).
    { intros acc' H' Hacc. destruct (IH acc' H' Hin) as [Ha | [e [He Hg]]].
      - now apply Hacc.
      - right. exists e. split; [now right | exact Hg]. }
    destruct item; try (apply (Hrest acc H); tauto).
    destruct (dict_get d (T "source_url")) as [[]|] eqn:G; try discriminate;
      try (apply (Hrest acc H); tauto).
    apply (Hrest (s :: acc) H). intros [<- | Ha]; [|now left].
    right. exists d. split; [now left | exact G].
Qed.

Lemma source_of_app (C added : list json) (u : text) :
  source_of (C ++ added) u <-> source_of C u \/ source_of added u.
Proof.
  unfold source_of. split.
  - intros [e [Hin Hg]]. apply in_app_or in Hin.
    destruct Hin; [left | right]; now exists e.
  - intros [[e [Hin Hg]] | [e [Hin Hg]]]; exists e; (split; [|exact Hg]);
      apply in_or_app; tauto.
Qed.

Lemma source_of_entries (url : text) (added : list json) (u : text) :
  Forall (entry_for url) added -> added <> [] ->
  (source_of added u <-> u = url).
Proof.
  intros Hf Hne. split.
  - intros [e [Hin Hg]]. rewrite Forall_forall in Hf.
    destruct (Hf _ Hin) as [name [body E]]. injection E as ->.
    rewrite source_url_field in Hg. congruence.
  - intros ->. destruct added as [|e r]; [contradiction|].
    inversion Hf as [|? ? [name [body ->]] _]; subst.
    exists (item_to_add name body url). split; [now left | apply source_url_field].
Qed.

Lemma hashable_entries (url : text) (added : list json) :
  Forall (entry_for url) added -> hashable_urls added = true.
Proof.
  intros Hf. unfold hashable_urls. rewrite forallb_forall. intros e Hin.
  rewrite Forall_forall in Hf. destruct (Hf _ Hin) as [name [body ->]].
  now rewrite source_url_field.
Qed.

Lemma run_loop_sources (rt : Runtime) (urls : list text) (st : run_state) :
  hashable_urls (all_mcp_servers_list st) = true ->
  (forall u, In u (processed_urls st) <-> source_of (all_mcp_servers_list st) u) ->
  hashable_urls (all_mcp_servers_list (run_loop rt urls st)) = true
  /\ forall u, In u (processed_urls (run_loop rt urls st))
               <-> source_of (all_mcp_servers_list (run_loop rt urls st)) u.
Proof.
  revert st. induction urls as [|url r IH]; intros st Hh Hs; [now split|].
  change (run_loop rt (url :: r) st) with (run_loop rt r (process_url rt st url)).
  destruct (process_url_step rt st url) as [added [evs [Hl [Hf [_ Hc]]]]].
  apply IH.
  - rewrite Hl. unfold hashable_urls in *. rewrite forallb_app, Hh.
    apply (hashable_entries url added Hf).
  - intros u. rewrite Hl, source_of_app.
    destruct Hc as [[Hne [Hp _]] | [-> [Hp _]]]; rewrite Hp.
    + rewrite (source_of_entries url added u Hf Hne). simpl. rewrite Hs.
      split; [intros [<- | H]; tauto | intros [H | ->]; tauto].
    + rewrite Hs. split; [tauto|]. intros [H | [e [[] _]]]. exact H.
Qed.

(** X15.  At the end of a run the processed set holds exactly the URLs a
    new start would read back from the final collection. *)
Theorem restart_reads_back_processed_urls (rt : Runtime) (urls : list text)
        (loaded : list json) (st : run_state) :
  main_on rt urls loaded = Some st ->
  exists p, load_processed_urls (all_mcp_servers_list st) [] = Some p
            /\ forall u, In u p <-> In u (processed_urls st).
Proof.
  unfold main_on. destruct (load_processed_urls loaded []) as [p0|] eqn:L; [|discriminate].
  intros H. injection H as <-.
  destruct (run_loop_sources rt urls
              {| all_mcp_servers_list := loaded; processed_urls := p0;
                 urls_checked_count := 0; log := [] |}) as [Hh Hs].
  - apply (load_processed_urls_some loaded []). now exists p0.
  - intros u. cbn [processed_urls all_mcp_servers_list]. split.
    + intros Hin. destruct (load_processed_urls_complete loaded [] p0 u L Hin)
        as [[] | Hso]. exact Hso.
    + intros [e [Hin Hg]].
      apply (proj2 (load_processed_urls_spec loaded [] p0 L) e u Hin Hg).
  - apply (load_processed_urls_some _ []) in Hh. destruct Hh as [p Hp].
    exists p. split; [exact Hp|]. intros u. rewrite Hs. split.
    + intros Hin. destruct (load_processed_urls_complete _ [] p u Hp Hin)
        as [[] | Hso]. exact Hso.
    + intros [e [Hin Hg]].
      apply (proj2 (load_processed_urls_spec _ [] p Hp) e u Hin Hg).
Qed.

Lemma restart_reads_back_processed_urls_witness :
  let u := T "https://example.com/servers.json" in
  let page := (Q "{'mcpServers': {'weather': {'command': 'python'}}}",
               Some (T "application/json")) in
  let rt := ascii_plain_pages (fun _ url => if text_eqb url u then Some page else None) in
  let old := JDict [(T "id", JStr (T "files")); (T "source_url", JStr (T "https://old.example"))] in
  exists st,
    main_on rt [u; T "https://example.com/missing"] [old] = Some st
    /\ processed_urls st = [u; T "https://old.example"]
    /\ exists p, load_processed_urls (all_mcp_servers_list st) [] = Some p
                 /\ forall v, In v p <-> In v (processed_urls st).
Proof.
  intros u page rt old.
  destruct (main_on rt [u; T "https://example.com/missing"] [old]) as [st|] eqn:E;
    [|vm_compute in E; discriminate].
  exists st. split; [reflexivity|]. split.
  - vm_compute in E. injection E as <-. reflexivity.
  - exact (restart_reads_back_processed_urls rt _ [old] st E).
Defined.


Lemma process_url_list (rt : Runtime) (st : run_state) (url : text) :
  all_mcp_servers_list (process_url rt st url) = all_mcp_servers_list st
  \/ exists D, all_mcp_servers_list (process_url rt st url)
               = merged_list (merge D url (all_mcp_servers_list st)).
Proof.
  unfold process_url. destruct (in_set url (processed_urls st)); [now left|].
  cbv zeta. cbn [urls_checked_count all_mcp_servers_list processed_urls log].
  destruct (http_get rt _ url) as [resp|]; [|now left].
  destruct (nonempty _); [|now left].
  right. exists (parse_page_content_for_data rt resp).
  destruct (raised _); [reflexivity|]. destruct (0 <? _); reflexivity.
Qed.

Lemma run_loop_pairs (rt : Runtime) (urls : list text) (st : run_state) :
  NoDup (str_pairs (all_mcp_servers_list st)) ->
  NoDup (str_pairs (all_mcp_servers_list (run_loop rt urls st))).
Proof.
  revert st. induction urls as [|url r IH]; intros st H; [exact H|].
  change (run_loop rt (url :: r) st) with (run_loop rt r (process_url rt st url)).
  apply IH. destruct (process_url_list rt st url) as [-> | [D ->]]; [exact H|].
  now apply merge_items_pairs.
Qed.

(** X16.  If no two entries of the loaded collection carry the same
    [(id, source_url)] strings, none do at the end of a run. *)
Theorem run_keeps_pairs_unique (rt : Runtime) (urls : list text)
        (loaded : list json) (st : run_state) :
  main_on rt urls loaded = Some st ->
  NoDup (str_pairs loaded) -> NoDup (str_pairs (all_mcp_servers_list st)).
Proof.
  unfold main_on. destruct (load_processed_urls loaded []) as [p|]; [|discriminate].
  intros H Hn. injection H as <-. now apply run_loop_pairs.
Qed.

Lemma run_keeps_pairs_unique_witness :
  let u := T "https://example.com/servers.json" in
  let page := (Q "{'mcpServers': {'weather': {'command': 'python'}, 'files': {}}}",
               Some (T "application/json")) in
  let rt := ascii_plain_pages (fun _ url => if text_eqb url u then Some page else None) in
  let loaded := [JDict [(T "id", JStr (T "weather")); (T "source_url", JNull)]] in
  exists st,
    main_on rt [u; u] loaded = Some st
    /\ NoDup (str_pairs loaded)
    /\ str_pairs (all_mcp_servers_list st) = [(T "weather", u); (T "files", u)]
    /\ NoDup (str_pairs (all_mcp_servers_list st)).
Proof.
  intros u page rt loaded.
  destruct (main_on rt [u; u] loaded) as [st|] eqn:E; [|vm_compute in E; discriminate].
  assert (Hn : NoDup (str_pairs loaded)) by constructor.
  exists st. split; [reflexivity|]. split; [exact Hn|]. split.
  - vm_compute in E. injection E as <-. reflexivity.
  - exact (run_keeps_pairs_unique rt _ loaded st E Hn).
Defined.

(** ** The URL file *)

Lemma starts_with_app (p s : text) : starts_with p (p ++ s) = true.
Proof. induction p as [|x p IH]; simpl; [reflexivity|]. now rewrite N.eqb_refl. Qed.

Lemma ends_with_app (ext s : text) : ends_with ext (s ++ ext) = true.
Proof. unfold ends_with. rewrite rev_app_distr. apply starts_with_app. Qed.

Lemma filter_urls_In (rt : Runtime) (src : UrlSource) (l : list text) (u : text) :
  In u (filter_urls rt src l) <->
  In u l /\ match url_path src u with
            | Some path => has_ignored_extension (lower rt path) = false
            | None => True
            end.
Proof.
  induction l as [|x l IH]; simpl; [tauto|].
  destruct (url_path src x) as [p|] eqn:E.
  - destruct (has_ignored_extension (lower rt p)) eqn:Hp; simpl.
    + rewrite IH. split; [tauto|]. intros [[->|H] K]; [|tauto].
      rewrite E in K. congruence.
    + rewrite IH. split.
      * intros [->|H]; [|tauto]. rewrite E. tauto.
      * tauto.
  - simpl. rewrite IH. split.
    + intros [->|H]; [|tauto]. rewrite E. tauto.
    + tauto.
Qed.

Lemma first_occurrences_enumerates : enumerates_set first_occurrences.
Proof.
  intros l. induction l as [|x l [Hn Hi]]; simpl.
  - split; [constructor|tauto].
  - assert (Hf : forall y, In y (filter (fun y => negb (text_eqb x y)) (first_occurrences l))
                           <-> In y l /\ x <> y).
    { intros y. rewrite filter_In, Hi, negb_true_iff.
      split; intros [A B]; split; trivial.
      - intros ->. assert (text_eqb y y = true) by now apply text_eqb_eq. congruence.
      - destruct (text_eqb x y) eqn:E; [|reflexivity]. apply text_eqb_eq in E. contradiction. }
    split.
    + constructor; [rewrite Hf; tauto|]. now apply NoDup_filter.
    + intros y. rewrite Hf. split; [tauto|].
      intros [->|H]; [now left|].
      destruct (text_eqb x y) eqn:E.
      * apply text_eqb_eq in E. now left.
      * right. split; trivial. intros ->.
        assert (text_eqb y y = true) by now apply text_eqb_eq. congruence.
Qed.

(** X17.  Whatever order the set iterates in, the list
    [extract_urls_from_text_file] returns has no duplicates, and a URL is in
    it exactly when the file was read, the extractor found the URL, and
    either [urlparse] raised on it or its lower-cased path ends with none of
    the ignored extensions.  In particular a file that cannot be read, or an
    extractor that raises, gives the empty list. *)
Theorem extract_urls_from_text_file_result (rt : Runtime) (src : UrlSource)
        (file_path_urls : text) :
  enumerates_set (list_of_set src) ->
  NoDup (extract_urls_from_text_file rt src file_path_urls)
  /\ (forall u,
        In u (extract_urls_from_text_file rt src file_path_urls) <->
        exists file_content potential_urls_raw,
          read_file src file_path_urls = Some file_content
          /\ find_urls src file_content = Some potential_urls_raw
          /\ In u potential_urls_raw
          /\ match url_path src u with
             | Some path => has_ignored_extension (lower rt path) = false
             | None => True
             end).
Proof.
  intros Hs. unfold extract_urls_from_text_file.
  destruct (read_file src file_path_urls) as [c|].
  2:{ split; [constructor|]. intros u. split; [intros []|].
      intros (c & l & H & _). discriminate. }
  destruct (find_urls src c) as [l|] eqn:E.
  2:{ split; [constructor|]. intros u. split; [intros []|].
      intros (c' & l & H & H' & _). congruence. }
  destruct (Hs (filter_urls rt src l)) as [Hn Hi]. split; [exact Hn|].
  intros u. rewrite Hi, filter_urls_In. split.
  - intros [A B]. now exists c, l.
  - intros (c' & l' & H & H' & A & B).
    assert (c' = c) by congruence. subst c'.
    assert (l' = l) by congruence. subst l'. tauto.
Qed.

Lemma extract_urls_from_text_file_result_witness :
  enumerates_set (list_of_set example_source)
  /\ extract_urls_from_text_file (ascii_plain_pages offline) example_source (T "urls.txt")
     = [T "https://example.com/a.json"; T "ftp://x"]
  /\ NoDup (extract_urls_from_text_file (ascii_plain_pages offline) example_source
                                        (T "urls.txt")).
Proof.
  split; [exact first_occurrences_enumerates|]. split; [reflexivity|].
  exact (proj1 (extract_urls_from_text_file_result (ascii_plain_pages offline)
                  example_source (T "urls.txt") first_occurrences_enumerates)).
Defined.

(** X18.  The extension filter looks at the end of the path and ignores
    letter case: a URL whose path is ASCII and ends with an ignored
    extension written in any mix of cases is never returned. *)
Theorem ignored_extensions_any_case (rt : Runtime) (src : UrlSource)
        (file_path_urls u stem suffix : text) :
  enumerates_set (list_of_set src) ->
  url_path src u = Some (stem ++ suffix) ->
  forallb is_ascii (stem ++ suffix) = true ->
  In (ascii_lower suffix) IGNORED_EXTENSIONS ->
  ~ In u (extract_urls_from_text_file rt src file_path_urls).
Proof.
  intros Hs Hp Ha He. unfold extract_urls_from_text_file.
  destruct (read_file src file_path_urls) as [c|]; [|intros []].
  destruct (find_urls src c) as [l|]; [|intros []].
  destruct (Hs (filter_urls rt src l)) as [_ Hi].
  rewrite Hi, filter_urls_In, Hp. intros [_ H].
  unfold lower in H. rewrite Ha, map_app in H.
  assert (K : has_ignored_extension
                (map (fun c => if is_upper c then (c + 32)%N else c) stem
                 ++ ascii_lower suffix) = true).
  { unfold has_ignored_extension. apply existsb_exists.
    exists (ascii_lower suffix). split; [exact He|]. apply ends_with_app. }
  unfold ascii_lower in K. congruence.
Qed.

Lemma ignored_extensions_any_case_witness :
  let u := T "https://example.com/Logo.PNG" in
  enumerates_set (list_of_set example_source)
  /\ url_path example_source u = Some (T "/Logo" ++ T ".PNG")
  /\ forallb is_ascii (T "/Logo" ++ T ".PNG") = true
  /\ In (ascii_lower (T ".PNG")) IGNORED_EXTENSIONS
  /\ ~ In u (extract_urls_from_text_file (ascii_plain_pages offline) example_source
                                         (T "urls.txt")).
Proof.
  intros u.
  assert (H1 : enumerates_set (list_of_set example_source))
    by exact first_occurrences_enumerates.
  assert (H2 : url_path example_source u = Some (T "/Logo" ++ T ".PNG")) by reflexivity.
  assert (H3 : forallb is_ascii (T "/Logo" ++ T ".PNG") = true) by reflexivity.
  assert (H4 : In (ascii_lower (T ".PNG")) IGNORED_EXTENSIONS)
    by (vm_compute; tauto).
  split; [exact H1|]. split; [exact H2|]. split; [exact H3|]. split; [exact H4|].
  exact (ignored_extensions_any_case (ascii_plain_pages offline) example_source
           (T "urls.txt") u (T "/Logo") (T ".PNG") H1 H2 H3 H4).
Defined.
